(** * Rock-Paper-Scissors-Plus: the referee's game logic and state machine

    A shallow embedding of [game_state.py] (moves, round results, the
    session record, [GameLogic]) and of the tool functions of
    [referee_agent.py] that mutate the process-wide [game_state].

    Conventions of the embedding.
    - Python [int] is [Z]; [bool] is [bool]; [None]-or-value is [option].
    - Python [str] is [string].  A character stands for the code point of
      the same number, so the strings covered are those over U+0000..U+00FF;
      on that range [str.lower] and [str.strip] are the two tables below.
    - A raised exception is the [Raised] result of a tool; the mutations made
      before the raise stay in the state, as in Python.
    - The two draws from [random] made by a round are an explicit argument. *)

From Stdlib Require Import ZArith NArith Bool List String Ascii Lia.
Import ListNotations.

Local Open Scope string_scope.
Local Open Scope Z_scope.

(* ===================================================================== *)
(** ** Strings: [str.lower], [str.strip], [str.upper]                     *)
(* ===================================================================== *)

Module PyStr.

(** [c.lower()] for one code point below 256: A-Z and the Latin-1 capitals
    U+00C0..U+00DE (the multiplication sign U+00D7 apart) move up by 32. *)
Definition lower_char (c : ascii) : ascii :=
  let n := N_of_ascii c in
  if ((65 <=? n) && (n <=? 90))%N
     || ((192 <=? n) && (n <=? 222) && negb (n =? 215))%N
  then ascii_of_N (n + 32) else c.

(** ASCII a-z move down by 32.  This is [str.upper] on ASCII text only: the
    development applies it to the four move names and to nothing else. *)
Definition upper_char (c : ascii) : ascii :=
  let n := N_of_ascii c in
  if ((97 <=? n) && (n <=? 122))%N then ascii_of_N (n - 32) else c.

(** The code points below 256 that [str.strip] removes: TAB..CR, FS..US,
    SPACE, NEL (U+0085) and NBSP (U+00A0). *)
Definition isspace (c : ascii) : bool :=
  let n := N_of_ascii c in
  (((9 <=? n) && (n <=? 13)) || ((28 <=? n) && (n <=? 32))
   || (n =? 133) || (n =? 160))%N.

Fixpoint lower (s : string) : string :=
  match s with
  | EmptyString => EmptyString
  | String c s' => String (lower_char c) (lower s')
  end.

Fixpoint upper (s : string) : string :=
  match s with
  | EmptyString => EmptyString
  | String c s' => String (upper_char c) (upper s')
  end.

Fixpoint lstrip (s : string) : string :=
  match s with
  | EmptyString => EmptyString
  | String c s' => if isspace c then lstrip s' else s
  end.

Definition is_empty (s : string) : bool :=
  match s with EmptyString => true | String _ _ => false end.

Fixpoint rstrip (s : string) : string :=
  match s with
  | EmptyString => EmptyString
  | String c s' =>
      let r := rstrip s' in
      if isspace c && is_empty r then EmptyString else String c r
  end.

Definition strip (s : string) : string := rstrip (lstrip s).

End PyStr.

(* ===================================================================== *)
(** ** game_state.py: the enumerations                                    *)
(* ===================================================================== *)

Inductive Move : Type := ROCK | PAPER | SCISSORS | BOMB.

Inductive RoundResult : Type := USER_WIN | BOT_WIN | DRAW | INVALID.

Definition Move_eqb (a b : Move) : bool :=
  match a, b with
  | ROCK, ROCK | PAPER, PAPER | SCISSORS, SCISSORS | BOMB, BOMB => true
  | _, _ => false
  end.

Definition RoundResult_eqb (a b : RoundResult) : bool :=
  match a, b with
  | USER_WIN, USER_WIN | BOT_WIN, BOT_WIN | DRAW, DRAW | INVALID, INVALID => true
  | _, _ => false
  end.

(** [m.value] *)
Definition Move_value (m : Move) : string :=
  match m with
  | ROCK => "rock"
  | PAPER => "paper"
  | SCISSORS => "scissors"
  | BOMB => "bomb"
  end.

(** [r.value] *)
Definition RoundResult_value (r : RoundResult) : string :=
  match r with
  | USER_WIN => "user_win"
  | BOT_WIN => "bot_win"
  | DRAW => "draw"
  | INVALID => "invalid"
  end.

(** The members of [Move] in definition order. *)
Definition Move_members : list Move := [ROCK; PAPER; SCISSORS; BOMB].

(** [Move(v)]: lookup of a member by value; [None] is the [ValueError]. *)
Definition Move_of_value (v : string) : option Move :=
  find (fun m => String.eqb (Move_value m) v) Move_members.

(* ===================================================================== *)
(** ** game_state.py: exceptions and results                              *)
(* ===================================================================== *)

Inductive PyExc : Type := KeyError | IndexError.

Inductive Result (A : Type) : Type :=
| Returned (a : A)
| Raised (e : PyExc).
Arguments Returned {A} a.
Arguments Raised {A} e.

(* ===================================================================== *)
(** ** game_state.py: GameLogic                                           *)
(* ===================================================================== *)

(** Lines 71-77 of [validate_move]: normalise, then look the member up. *)
Definition parse_move (move : string) : option Move :=
  let move_lower := PyStr.strip (PyStr.lower move) in
  Move_of_value move_lower.

Definition unknown_move_message (move : string) : string :=
  "Invalid move '" ++ move ++ "'. Valid moves: rock, paper, scissors, bomb".

Definition bomb_used_message : string := "Bomb has already been used this game".

(** [GameLogic.validate_move(move, player_bomb_used)]
    returns [(is_valid, move_enum, error_message)]. *)
Definition validate_move (move : string) (player_bomb_used : bool)
  : bool * option Move * string :=
  match parse_move move with
  | None => (false, None, unknown_move_message move)
  | Some parsed_move =>
      if Move_eqb parsed_move BOMB && player_bomb_used
      then (false, None, bomb_used_message)
      else (true, Some parsed_move, "")
  end.

(** The dict [winning_moves] of [resolve_round], in insertion order. *)
Definition winning_moves : list (Move * Move) :=
  [(ROCK, SCISSORS); (SCISSORS, PAPER); (PAPER, ROCK)].

(** [d[k]]: the value of the first entry with key [k], [KeyError] without. *)
Fixpoint dict_get (d : list (Move * Move)) (k : Move) : Result Move :=
  match d with
  | [] => Raised KeyError
  | (k', v) :: d' => if Move_eqb k' k then Returned v else dict_get d' k
  end.

(** Lines 96-101: the three bomb guards; [None] when none of them returns. *)
Definition bomb_cases (user_move bot_move : Move) : option RoundResult :=
  if Move_eqb user_move BOMB && Move_eqb bot_move BOMB then Some DRAW
  else if Move_eqb user_move BOMB then Some USER_WIN
  else if Move_eqb bot_move BOMB then Some BOT_WIN
  else None.

(** Lines 104-115: the comparison through the table. *)
Definition standard_rules (user_move bot_move : Move) : Result RoundResult :=
  if Move_eqb user_move bot_move then Returned DRAW
  else match dict_get winning_moves user_move with
       | Raised e => Raised e
       | Returned w =>
           if Move_eqb w bot_move then Returned USER_WIN else Returned BOT_WIN
       end.

(** [GameLogic.resolve_round(user_move, bot_move)] *)
Definition resolve_round (user_move bot_move : Move) : Result RoundResult :=
  match bomb_cases user_move bot_move with
  | Some r => Returned r
  | None => standard_rules user_move bot_move
  end.

(** [GameLogic.determine_game_winner(state)] is defined after [GameState]. *)

(* ===================================================================== *)
(** ** game_state.py: the session record                                  *)
(* ===================================================================== *)

(** One entry of [rounds_history]: the dict built at lines 103-108 of
    [referee_agent.py]. *)
Record RoundRecord : Type := mkRoundRecord {
  rec_round : Z;
  rec_user_move : string;
  rec_bot_move : string;
  rec_result : string
}.

Record GameState : Type := mkGameState {
  round_number : Z;
  user_score : Z;
  bot_score : Z;
  user_bomb_used : bool;
  bot_bomb_used : bool;
  game_over : bool;
  rounds_history : list RoundRecord
}.

(** [GameState()]: the field defaults, and the fresh empty list that
    [__post_init__] puts in place of [None]. *)
Definition GameState_new : GameState :=
  {| round_number := 0; user_score := 0; bot_score := 0;
     user_bomb_used := false; bot_bomb_used := false; game_over := false;
     rounds_history := [] |}.

(** [state.to_dict()]: a dict with exactly the seven fields of the record. *)
Definition to_dict (g : GameState) : GameState := g.

Definition set_round_number (v : Z) (g : GameState) : GameState :=
  {| round_number := v; user_score := user_score g; bot_score := bot_score g;
     user_bomb_used := user_bomb_used g; bot_bomb_used := bot_bomb_used g;
     game_over := game_over g; rounds_history := rounds_history g |}.

Definition set_user_score (v : Z) (g : GameState) : GameState :=
  {| round_number := round_number g; user_score := v; bot_score := bot_score g;
     user_bomb_used := user_bomb_used g; bot_bomb_used := bot_bomb_used g;
     game_over := game_over g; rounds_history := rounds_history g |}.

Definition set_bot_score (v : Z) (g : GameState) : GameState :=
  {| round_number := round_number g; user_score := user_score g; bot_score := v;
     user_bomb_used := user_bomb_used g; bot_bomb_used := bot_bomb_used g;
     game_over := game_over g; rounds_history := rounds_history g |}.

Definition set_user_bomb_used (v : bool) (g : GameState) : GameState :=
  {| round_number := round_number g; user_score := user_score g;
     bot_score := bot_score g;
     user_bomb_used := v; bot_bomb_used := bot_bomb_used g;
     game_over := game_over g; rounds_history := rounds_history g |}.

Definition set_bot_bomb_used (v : bool) (g : GameState) : GameState :=
  {| round_number := round_number g; user_score := user_score g;
     bot_score := bot_score g;
     user_bomb_used := user_bomb_used g; bot_bomb_used := v;
     game_over := game_over g; rounds_history := rounds_history g |}.

Definition set_game_over (v : bool) (g : GameState) : GameState :=
  {| round_number := round_number g; user_score := user_score g;
     bot_score := bot_score g;
     user_bomb_used := user_bomb_used g; bot_bomb_used := bot_bomb_used g;
     game_over := v; rounds_history := rounds_history g |}.

(** [state.rounds_history.append(r)] *)
Definition append_history (r : RoundRecord) (g : GameState) : GameState :=
  {| round_number := round_number g; user_score := user_score g;
     bot_score := bot_score g;
     user_bomb_used := user_bomb_used g; bot_bomb_used := bot_bomb_used g;
     game_over := game_over g; rounds_history := (rounds_history g ++ [r])%list |}.

(** [GameLogic.determine_game_winner(state)] *)
Definition determine_game_winner (state : GameState) : string :=
  if user_score state >? bot_score state then "user"
  else if bot_score state >? user_score state then "bot"
  else "draw".

(* ===================================================================== *)
(** ** referee_agent.py: tools over the global [game_state]               *)
(* ===================================================================== *)

(** A tool reads and writes the module-level [game_state] and either returns
    or raises; what it wrote before raising stays written. *)
Definition Tool (A : Type) : Type := GameState -> Result A * GameState.

Definition ret {A} (a : A) : Tool A := fun g => (Returned a, g).

Definition bind {A B} (c : Tool A) (k : A -> Tool B) : Tool B :=
  fun g => match c g with
           | (Returned a, g') => k a g'
           | (Raised e, g') => (Raised e, g')
           end.

Definition read : Tool GameState := fun g => (Returned g, g).

Definition update (f : GameState -> GameState) : Tool unit :=
  fun g => (Returned tt, f g).

Definition lift {A} (r : Result A) : Tool A := fun g => (r, g).

Declare Scope tool_scope.
Delimit Scope tool_scope with tool.
Notation "x <- c ;; k" := (bind c (fun x => k))
  (at level 61, c at next level, right associativity) : tool_scope.
Notation "c ;; k" := (bind c (fun _ => k))
  (at level 61, right associativity) : tool_scope.
Local Open Scope tool_scope.

(** Python's [if cond: stmt] with no [else]. *)
Definition when (cond : bool) (c : Tool unit) : Tool unit :=
  if cond then c else ret tt.

(** What one round draws from [random]: whether [random.random() < 0.15]
    held (read only when the opponent's bomb is unused), and the number
    behind [random.choice]. *)
Record Random : Type := mkRandom {
  below_threshold : bool;
  draw : nat
}.

(** [random.choice(seq)]: the element at an index below [len(seq)];
    [IndexError] on an empty sequence. *)
Definition random_choice (seq : list Move) (r : nat) : Result Move :=
  match nth_error seq (r mod List.length seq)%nat with
  | Some m => Returned m
  | None => Raised IndexError
  end.

(** The dict returned by [play_round_tool].  A key that one of the two
    return statements leaves out is [None] here; ["bot_move": None] of the
    invalid branch is [None] as well. *)
Record Outcome : Type := mkOutcome {
  out_round_number : Z;
  out_result : string;
  out_error_message : option string;
  out_user_move : string;
  out_bot_move : option string;
  out_user_score : Z;
  out_bot_score : Z;
  out_game_over : bool;
  out_user_bomb_used : option bool;
  out_bot_bomb_used : option bool
}.

(** Lines 56-73: the branch taken when [is_valid] is false. *)
Definition invalid_round (user_move error_msg : string) : Tool Outcome :=
  update (fun g => set_round_number (round_number g + 1) g) ;;
  g <- read ;;
  when (round_number g >=? 3) (update (set_game_over true)) ;;
  g <- read ;;
  ret {| out_round_number := round_number g;
         out_result := "invalid";
         out_error_message := Some error_msg;
         out_user_move := user_move;
         out_bot_move := None;
         out_user_score := user_score g;
         out_bot_score := bot_score g;
         out_game_over := game_over g;
         out_user_bomb_used := None;
         out_bot_bomb_used := None |}.

(** Lines 76-82: the opponent's candidates and its pick. *)
Definition available_moves (bot_bomb_used_now : bool) (rnd : Random) : list Move :=
  ([ROCK; PAPER; SCISSORS]
   ++ (if negb bot_bomb_used_now
       then (if below_threshold rnd then [BOMB] else [])
       else []))%list.

(** Lines 76-125: the branch taken for a valid move. *)
Definition valid_round (user_move_enum : Move) (rnd : Random) : Tool Outcome :=
  g <- read ;;
  bot_move_enum <- lift (random_choice (available_moves (bot_bomb_used g) rnd)
                                       (draw rnd)) ;;
  when (Move_eqb user_move_enum BOMB) (update (set_user_bomb_used true)) ;;
  when (Move_eqb bot_move_enum BOMB) (update (set_bot_bomb_used true)) ;;
  result <- lift (resolve_round user_move_enum bot_move_enum) ;;
  (if RoundResult_eqb result USER_WIN
   then update (fun g => set_user_score (user_score g + 1) g)
   else when (RoundResult_eqb result BOT_WIN)
             (update (fun g => set_bot_score (bot_score g + 1) g))) ;;
  update (fun g => set_round_number (round_number g + 1) g) ;;
  g <- read ;;
  update (append_history
            {| rec_round := round_number g;
               rec_user_move := Move_value user_move_enum;
               rec_bot_move := Move_value bot_move_enum;
               rec_result := RoundResult_value result |}) ;;
  when (round_number g >=? 3) (update (set_game_over true)) ;;
  g <- read ;;
  ret {| out_round_number := round_number g;
         out_result := RoundResult_value result;
         out_error_message := None;
         out_user_move := Move_value user_move_enum;
         out_bot_move := Some (Move_value bot_move_enum);
         out_user_score := user_score g;
         out_bot_score := bot_score g;
         out_game_over := game_over g;
         out_user_bomb_used := Some (user_bomb_used g);
         out_bot_bomb_used := Some (bot_bomb_used g) |}.

(** [play_round_tool(user_move)].  [validate_move] returns a member whenever
    it returns [is_valid = True] (lemma [validate_move_valid] below), so the
    last case never runs.  Python would fail there at the first use of the
    missing member, in the table lookup or at [.value], depending on the
    opponent's draw; the model raises at once. *)
Definition play_round_tool (user_move : string) (rnd : Random) : Tool Outcome :=
  g <- read ;;
  match validate_move user_move (user_bomb_used g) with
  | (false, _, error_msg) => invalid_round user_move error_msg
  | (true, Some user_move_enum, _) => valid_round user_move_enum rnd
  | (true, None, _) => lift (Raised KeyError)
  end.

(** The dict returned by [validate_move_tool]. *)
Record Validation : Type := mkValidation {
  is_valid : bool;
  parsed_move : option string;
  error_message : string;
  current_state : GameState
}.

(** [validate_move_tool(move)] *)
Definition validate_move_tool (move : string) : Tool Validation :=
  g <- read ;;
  let '(ok, parsed, error_msg) := validate_move move (user_bomb_used g) in
  g' <- read ;;
  ret {| is_valid := ok;
         parsed_move := option_map Move_value parsed;
         error_message := error_msg;
         current_state := to_dict g' |}.

(** [get_game_state_tool()] *)
Definition get_game_state_tool : Tool GameState :=
  g <- read ;; ret (to_dict g).

(** [reset_game_tool()]: rebinds the global to a new [GameState()]. *)
Definition reset_game_tool : Tool (string * GameState) :=
  update (fun _ => GameState_new) ;;
  g <- read ;;
  ret ("Game has been reset", to_dict g).

(* ===================================================================== *)
(** ** Sequences of calls                                                 *)
(* ===================================================================== *)

(** One [play_round] call: the user's text and the round's random draws. *)
Definition Call : Type := (string * Random)%type.

(** The state left by a tool. *)
Definition exec {A} (c : Tool A) (g : GameState) : GameState := snd (c g).

(** The result of a tool. *)
Definition eval {A} (c : Tool A) (g : GameState) : Result A := fst (c g).

(** The calls made one after the other, with the result of each. *)
Fixpoint play_all (calls : list Call) (g : GameState)
  : list (Result Outcome) * GameState :=
  match calls with
  | [] => ([], g)
  | (text, rnd) :: rest =>
      let '(r, g1) := play_round_tool text rnd g in
      let '(rs, g2) := play_all rest g1 in
      (r :: rs, g2)
  end.

(** How many of the calls returned an outcome whose ["result"] is [v]. *)
Fixpoint count_result (v : string) (rs : list (Result Outcome)) : Z :=
  match rs with
  | [] => 0
  | Returned o :: rs' =>
      (if String.eqb (out_result o) v then 1 else 0) + count_result v rs'
  | Raised _ :: rs' => count_result v rs'
  end.

(** Every call of the sequence is made while [game_over] is still false:
    the discipline of the loop [while not game_state.game_over] in
    [main.py]. *)
Fixpoint only_while_open (calls : list Call) (g : GameState) : bool :=
  match calls with
  | [] => true
  | (text, rnd) :: rest =>
      negb (game_over g) && only_while_open rest (exec (play_round_tool text rnd) g)
  end.

(** The successive values of a flag along the calls, the start included. *)
Fixpoint flag_trace (flag : GameState -> bool) (calls : list Call)
  (g : GameState) : list bool :=
  flag g :: match calls with
            | [] => []
            | (text, rnd) :: rest =>
                flag_trace flag rest (exec (play_round_tool text rnd) g)
            end.

(** How many times a list of booleans steps from false to true. *)
Fixpoint rises (l : list bool) : nat :=
  match l with
  | false :: ((true :: _) as t) => S (rises t)
  | _ :: t => rises t
  | [] => O
  end.

(** The state after all the calls. *)
Definition final (calls : list Call) (g : GameState) : GameState :=
  snd (play_all calls g).

(** The cycle in the specification's words: rock beats scissors, scissors
    beats paper, paper beats rock. *)
Inductive cycle_beats : Move -> Move -> Prop :=
| rock_beats_scissors : cycle_beats ROCK SCISSORS
| scissors_beats_paper : cycle_beats SCISSORS PAPER
| paper_beats_rock : cycle_beats PAPER ROCK.

(** The state a valid round leaves, given the opponent's move and the
    result: the assignments of lines 85-113 composed. *)
Definition after_valid_round (u b : Move) (res : RoundResult) (g : GameState)
  : GameState :=
  {| round_number := round_number g + 1;
     user_score := if RoundResult_eqb res USER_WIN
                   then user_score g + 1 else user_score g;
     bot_score := if RoundResult_eqb res USER_WIN then bot_score g
                  else if RoundResult_eqb res BOT_WIN
                       then bot_score g + 1 else bot_score g;
     user_bomb_used := if Move_eqb u BOMB then true else user_bomb_used g;
     bot_bomb_used := if Move_eqb b BOMB then true else bot_bomb_used g;
     game_over := if round_number g + 1 >=? 3 then true else game_over g;
     rounds_history :=
       (rounds_history g
        ++ [{| rec_round := round_number g + 1;
               rec_user_move := Move_value u;
               rec_bot_move := Move_value b;
               rec_result := RoundResult_value res |}])%list |}.

(** The state an invalid round leaves: lines 58-62 composed. *)
Definition after_invalid_round (g : GameState) : GameState :=
  {| round_number := round_number g + 1;
     user_score := user_score g;
     bot_score := bot_score g;
     user_bomb_used := user_bomb_used g;
     bot_bomb_used := bot_bomb_used g;
     game_over := if round_number g + 1 >=? 3 then true else game_over g;
     rounds_history := rounds_history g |}.

(** The dict returned at lines 64-73. *)
Definition invalid_outcome (text msg : string) (g' : GameState) : Outcome :=
  {| out_round_number := round_number g';
     out_result := "invalid";
     out_error_message := Some msg;
     out_user_move := text;
     out_bot_move := None;
     out_user_score := user_score g';
     out_bot_score := bot_score g';
     out_game_over := game_over g';
     out_user_bomb_used := None;
     out_bot_bomb_used := None |}.

(** The dict returned at lines 115-125. *)
Definition valid_outcome (u b : Move) (res : RoundResult) (g' : GameState)
  : Outcome :=
  {| out_round_number := round_number g';
     out_result := RoundResult_value res;
     out_error_message := None;
     out_user_move := Move_value u;
     out_bot_move := Some (Move_value b);
     out_user_score := user_score g';
     out_bot_score := bot_score g';
     out_game_over := game_over g';
     out_user_bomb_used := Some (user_bomb_used g');
     out_bot_bomb_used := Some (bot_bomb_used g') |}.

(** One call of [play_round_tool] as a transition: the text is refused and
    the round is wasted, or the round is played against some move [b] the
    opponent could draw. *)
Inductive round_step (text : string) (g : GameState)
  : Outcome -> GameState -> Prop :=
| step_invalid (msg : string) :
    validate_move text (user_bomb_used g) = (false, None, msg) ->
    round_step text g
      (invalid_outcome text msg (after_invalid_round g))
      (after_invalid_round g)
| step_valid (u b : Move) (res : RoundResult) :
    validate_move text (user_bomb_used g) = (true, Some u, "") ->
    In b [ROCK; PAPER; SCISSORS] \/ (b = BOMB /\ bot_bomb_used g = false) ->
    resolve_round u b = Returned res ->
    res <> INVALID ->
    round_step text g
      (valid_outcome u b res (after_valid_round u b res g))
      (after_valid_round u b res g).

(** 1 when the outcome's ["result"] is [v], else 0. *)
Definition tally (v : string) (o : Outcome) : Z :=
  if String.eqb (out_result o) v then 1 else 0.

(** The session is open exactly below round 3, and has not passed it. *)
Definition within_limit (g : GameState) : Prop :=
  round_number g <= 3 /\ game_over g = (round_number g >=? 3).

(** Four valid rounds in a row; each random draw makes the opponent play
    rock. *)
Definition four_rocks : list Call :=
  [("rock", mkRandom false 0); ("rock", mkRandom false 0);
   ("rock", mkRandom false 0); ("rock", mkRandom false 0)].

(** A result that is a return, not a raise. *)
Definition returned {A} (r : Result A) : Prop := exists a, r = Returned a.

(* ===================================================================== *)
(** ** Reading the history                                                *)
(* ===================================================================== *)

(** How many records of a history satisfy a test. *)
Definition count_where (p : RoundRecord -> bool) (h : list RoundRecord) : Z :=
  Z.of_nat (List.length (filter p h)).

Definition result_is (v : string) (r : RoundRecord) : bool :=
  String.eqb (rec_result r) v.

Definition user_played (v : string) (r : RoundRecord) : bool :=
  String.eqb (rec_user_move r) v.

Definition bot_played (v : string) (r : RoundRecord) : bool :=
  String.eqb (rec_bot_move r) v.

(** A record whose three strings are the values of two moves and of the
    result of resolving them. *)
Definition record_resolved (r : RoundRecord) : Prop :=
  exists u b res,
    rec_user_move r = Move_value u
    /\ rec_bot_move r = Move_value b
    /\ rec_result r = RoundResult_value res
    /\ resolve_round u b = Returned res.

(** The round numbers of a history increase strictly. *)
Fixpoint rounds_increase (h : list RoundRecord) : Prop :=
  match h with
  | [] => True
  | r :: h' => Forall (fun r' => rec_round r < rec_round r') h'
               /\ rounds_increase h'
  end.

(** The scores are the tallies of won rounds in the history. *)
Definition scores_tallied (g : GameState) : Prop :=
  user_score g = count_where (result_is "user_win") (rounds_history g)
  /\ bot_score g = count_where (result_is "bot_win") (rounds_history g).

(** Each side's bomb flag says whether the history holds a round in which
    that side played the bomb; it holds at most one. *)
Definition bombs_recorded (g : GameState) : Prop :=
  count_where (user_played "bomb") (rounds_history g)
  = Z.b2z (user_bomb_used g)
  /\ count_where (bot_played "bomb") (rounds_history g)
     = Z.b2z (bot_bomb_used g).

(** The history is numbered by increasing rounds between 1 and the current
    round. *)
Definition history_numbered (g : GameState) : Prop :=
  0 <= round_number g
  /\ Forall (fun r => 1 <= rec_round r <= round_number g) (rounds_history g)
  /\ rounds_increase (rounds_history g).

(* ===================================================================== *)
(** ** referee_agent.py: the tool table                                   *)
(* ===================================================================== *)

(** A call that [main.py] dispatches through [TOOL_FUNCTIONS], with the
    arguments its declaration requires (and, for a round, the round's
    random draws). *)
Inductive ToolRequest : Type :=
| ValidateMove (move : string)
| PlayRound (user_move : string) (rnd : Random)
| GetGameState
| ResetGame.

(** What the called tool returns. *)
Inductive ToolReply : Type :=
| ValidationReply (v : Validation)
| OutcomeReply (o : Outcome)
| StateReply (g : GameState)
| ResetReply (message : string) (state : GameState).

(** The keys of [TOOL_FUNCTIONS]. *)
Definition tool_name (req : ToolRequest) : string :=
  match req with
  | ValidateMove _ => "validate_move"
  | PlayRound _ _ => "play_round"
  | GetGameState => "get_game_state"
  | ResetGame => "reset_game"
  end.

(** The call [TOOL_FUNCTIONS[function_name]] applied to its keyword
    arguments, line 106 of [main.py]. *)
Definition call_tool (req : ToolRequest) : Tool ToolReply :=
  match req with
  | ValidateMove move =>
      v <- validate_move_tool move ;; ret (ValidationReply v)
  | PlayRound user_move rnd =>
      o <- play_round_tool user_move rnd ;; ret (OutcomeReply o)
  | GetGameState =>
      g <- get_game_state_tool ;; ret (StateReply g)
  | ResetGame =>
      r <- reset_game_tool ;; ret (ResetReply (fst r) (snd r))
  end.

(** The state after the tool calls, made one after the other. *)
Fixpoint run_tools (reqs : list ToolRequest) (g : GameState) : GameState :=
  match reqs with
  | [] => g
  | req :: rest => run_tools rest (exec (call_tool req) g)
  end.

(* ===================================================================== *)
(** ** main.py: the imported name and the rebound global                  *)
(* ===================================================================== *)

(** [main.py] binds its own name [game_state] by
    [from referee_agent import game_state], once, to the object the module
    global names at import time.  The tools mutate the object the global of
    [referee_agent] names; [reset_game_tool] does not mutate it but rebinds
    the global to a new object.  [imported_object] is the object behind the
    name in [main.py]; [rebound_object] is the object behind the global once
    it has been rebound, and [None] while both names still share one
    object. *)
Record Process : Type := mkProcess {
  imported_object : GameState;
  rebound_object : option GameState
}.

(** The process right after the imports. *)
Definition Process_start : Process :=
  {| imported_object := GameState_new; rebound_object := None |}.

(** The object [referee_agent.game_state] names. *)
Definition agent_object (p : Process) : GameState :=
  match rebound_object p with
  | Some g => g
  | None => imported_object p
  end.

(** A mutation of the object the global names. *)
Definition mutate_agent_object (g' : GameState) (p : Process) : Process :=
  match rebound_object p with
  | Some _ => {| imported_object := imported_object p;
                 rebound_object := Some g' |}
  | None => {| imported_object := g'; rebound_object := None |}
  end.

(** One dispatched call, in the process. *)
Definition process_call (req : ToolRequest) (p : Process) : Process :=
  match req with
  | ResetGame =>
      {| imported_object := imported_object p;
         rebound_object := Some (exec (call_tool ResetGame) (agent_object p)) |}
  | _ => mutate_agent_object (exec (call_tool req) (agent_object p)) p
  end.

Fixpoint process_calls (reqs : list ToolRequest) (p : Process) : Process :=
  match reqs with
  | [] => p
  | req :: rest => process_calls rest (process_call req p)
  end.

(** What the loop test [while not game_state.game_over] and the final
    report of [run_game] read. *)
Definition main_sees (p : Process) : GameState := imported_object p.

(** Whether a request is the reset. *)
Definition is_reset (req : ToolRequest) : bool :=
  match req with ResetGame => true | _ => false end.

(* ===================================================================== *)
(** ** app.py: sessions and handlers                                      *)
(* ===================================================================== *)

(** [session.get('session_id')]: [None] when the cookie has no id yet. *)
Definition SessionId : Type := option string.

Definition SessionId_eqb (a b : SessionId) : bool :=
  match a, b with
  | None, None => true
  | Some x, Some y => String.eqb x y
  | _, _ => false
  end.

(** The dict [game_sessions], in insertion order. *)
Definition Sessions : Type := list (SessionId * GameState).

(** [game_sessions[sid]], [None] when the key is missing. *)
Fixpoint sessions_get (sid : SessionId) (ss : Sessions) : option GameState :=
  match ss with
  | [] => None
  | (k, g) :: ss' => if SessionId_eqb k sid then Some g else sessions_get sid ss'
  end.

(** [game_sessions[sid] = g]: the entry is replaced in place, or added at
    the end. *)
Fixpoint sessions_set (sid : SessionId) (g : GameState) (ss : Sessions)
  : Sessions :=
  match ss with
  | [] => [(sid, g)]
  | (k, g0) :: ss' =>
      if SessionId_eqb k sid then (k, g) :: ss'
      else (k, g0) :: sessions_set sid g ss'
  end.

(** [get_or_create_game_state(session_id)] *)
Definition get_or_create_game_state (session_id : SessionId) (ss : Sessions)
  : GameState * Sessions :=
  match sessions_get session_id ss with
  | Some g => (g, ss)
  | None => (GameState_new, sessions_set session_id GameState_new ss)
  end.

(** What [get_ai_response] did: it returned the model's text, or raised. *)
Inductive AiReply : Type :=
| AiText (text : string)
| AiFailed.

(** What one pass through the [try] block of [get_ai_response] does: the
    model answers, or a [ClientError] mentioning RESOURCE_EXHAUSTED is
    raised, or anything else is raised. *)
Inductive Attempt : Type :=
| Answered (text : string)
| QuotaExhausted
| OtherError.

(** The recursion of [get_ai_response(message, retry_count)].  [attempts k]
    is what the k-th pass from here on does; the second component of the
    result counts the passes made (each but the first comes after a
    [time.sleep(2)]).  A retry is made only while [retry_count < 2], so
    [fuel] passes are enough when [fuel] is more than [2 - retry_count]. *)
Fixpoint get_ai_response_loop (fuel : nat) (attempts : nat -> Attempt)
  (retry_count : Z) : AiReply * nat :=
  match fuel with
  | O => (AiFailed, O)
  | S fuel' =>
      match attempts O with
      | Answered text => (AiText text, 1%nat)
      | QuotaExhausted =>
          if retry_count <? 2
          then let '(reply, passes) :=
                 get_ai_response_loop fuel' (fun k => attempts (S k))
                                      (retry_count + 1) in
               (reply, S passes)
          else (AiFailed, 1%nat)
      | OtherError => (AiFailed, 1%nat)
      end
  end.

(** [get_ai_response(message, retry_count)] of [app.py]. *)
Definition get_ai_response (attempts : nat -> Attempt) (retry_count : Z)
  : AiReply * nat :=
  get_ai_response_loop (S (Z.to_nat (2 - retry_count))) attempts retry_count.

(** The ['commentary'] of a played round: the model's text, or one of the
    three canned lines of lines 159-164, each with the round number it
    prints. *)
Inductive Commentary : Type :=
| FromModel (text : string)
| YouWinRound (round : Z)
| IWinRound (round : Z)
| RoundIsDraw (round : Z).

(** The JSON body answered by [/api/play].  A key that one of the two
    return statements leaves out is [None] here; ['winner': None] is [None]
    as well. *)
Record PlayResponse : Type := mkPlayResponse {
  resp_success : bool;
  resp_error : option string;
  resp_round : Z;
  resp_user_move : option string;
  resp_bot_move : option string;
  resp_result : option string;
  resp_user_score : option Z;
  resp_bot_score : option Z;
  resp_game_over : bool;
  resp_winner : option string;
  resp_commentary : option Commentary;
  resp_user_bomb_used : option bool;
  resp_bot_bomb_used : option bool;
  resp_state : GameState
}.

(** Lines 97-108 of [app.py]. *)
Definition app_invalid_round (error_msg : string) : Tool PlayResponse :=
  update (fun g => set_round_number (round_number g + 1) g) ;;
  g <- read ;;
  when (round_number g >=? 3) (update (set_game_over true)) ;;
  g <- read ;;
  ret {| resp_success := false;
         resp_error := Some error_msg;
         resp_round := round_number g;
         resp_user_move := None;
         resp_bot_move := None;
         resp_result := None;
         resp_user_score := None;
         resp_bot_score := None;
         resp_game_over := game_over g;
         resp_winner := None;
         resp_commentary := None;
         resp_user_bomb_used := None;
         resp_bot_bomb_used := None;
         resp_state := to_dict g |}.

(** Lines 111-115 of [app.py]: the opponent's candidates. *)
Definition app_available_moves (bot_bomb_used_now : bool) (rnd : Random)
  : list Move :=
  ([ROCK; PAPER; SCISSORS]
   ++ (if negb bot_bomb_used_now && below_threshold rnd then [BOMB] else []))%list.

(** Lines 150-164 of [app.py]: the model's text, or the canned line. *)
Definition app_commentary (ai : AiReply) (result : RoundResult) (round : Z)
  : Commentary :=
  match ai with
  | AiText text => FromModel text
  | AiFailed =>
      if RoundResult_eqb result USER_WIN then YouWinRound round
      else if RoundResult_eqb result BOT_WIN then IWinRound round
      else RoundIsDraw round
  end.

(** Lines 110-180 of [app.py]. *)
Definition app_valid_round (user_move_enum : Move) (rnd : Random)
  (ai : AiReply) : Tool PlayResponse :=
  g <- read ;;
  bot_move_enum <- lift (random_choice
                           (app_available_moves (bot_bomb_used g) rnd)
                           (draw rnd)) ;;
  when (Move_eqb user_move_enum BOMB) (update (set_user_bomb_used true)) ;;
  when (Move_eqb bot_move_enum BOMB) (update (set_bot_bomb_used true)) ;;
  result <- lift (resolve_round user_move_enum bot_move_enum) ;;
  (if RoundResult_eqb result USER_WIN
   then update (fun g => set_user_score (user_score g + 1) g)
   else when (RoundResult_eqb result BOT_WIN)
             (update (fun g => set_bot_score (bot_score g + 1) g))) ;;
  update (fun g => set_round_number (round_number g + 1) g) ;;
  g <- read ;;
  update (append_history
            {| rec_round := round_number g;
               rec_user_move := Move_value user_move_enum;
               rec_bot_move := Move_value bot_move_enum;
               rec_result := RoundResult_value result |}) ;;
  g <- read ;;
  winner <- (if round_number g >=? 3
             then update (set_game_over true) ;;
                  g <- read ;; ret (Some (determine_game_winner g))
             else ret None) ;;
  g <- read ;;
  ret {| resp_success := true;
         resp_error := None;
         resp_round := round_number g;
         resp_user_move := Some (Move_value user_move_enum);
         resp_bot_move := Some (Move_value bot_move_enum);
         resp_result := Some (RoundResult_value result);
         resp_user_score := Some (user_score g);
         resp_bot_score := Some (bot_score g);
         resp_game_over := game_over g;
         resp_winner := winner;
         resp_commentary :=
           Some (app_commentary ai result (round_number g));
         resp_user_bomb_used := Some (user_bomb_used g);
         resp_bot_bomb_used := Some (bot_bomb_used g);
         resp_state := to_dict g |}.

(** The body of [play_round] in [app.py], on the session's object.
    [move] is the ['move'] of the request body, [None] when the key is
    missing. *)
Definition app_play_body (move : option string) (rnd : Random) (ai : AiReply)
  : Tool PlayResponse :=
  let user_move :=
    PyStr.lower (match move with Some s => s | None => "" end) in
  g <- read ;;
  match validate_move user_move (user_bomb_used g) with
  | (false, _, error_msg) => app_invalid_round error_msg
  | (true, Some user_move_enum, _) => app_valid_round user_move_enum rnd ai
  | (true, None, _) => lift (Raised KeyError)
  end.

(** [play_round()] of [app.py]: the session's object is fetched or created,
    then mutated in place. *)
Definition app_play_round (session_id : SessionId) (move : option string)
  (rnd : Random) (ai : AiReply) (ss : Sessions)
  : Result PlayResponse * Sessions :=
  let '(g, ss1) := get_or_create_game_state session_id ss in
  let '(r, g') := app_play_body move rnd ai g in
  (r, sessions_set session_id g' ss1).

(** [start_game()] of [app.py]: the state it stores and reports. *)
Definition app_start_game (session_id : SessionId) (ss : Sessions)
  : GameState * Sessions :=
  let game_state := GameState_new in
  (to_dict game_state, sessions_set session_id game_state ss).

(** [reset_game()] of [app.py] *)
Definition app_reset_game (session_id : SessionId) (ss : Sessions) : Sessions :=
  sessions_set session_id GameState_new ss.

(** [data.get('move', '')]: the posted text, empty when the key is
    missing.  A body whose ['move'] is not a string is outside the model. *)
Definition posted_text (move : option string) : string :=
  match move with Some s => s | None => "" end.

(** The state of a session as a handler finds it: the stored object, or a
    new [GameState()]. *)
Definition session_state (sid : SessionId) (ss : Sessions) : GameState :=
  match sessions_get sid ss with Some g => g | None => GameState_new end.

(** The laws of a session state that the rounds keep. *)
Definition coherent (g : GameState) : Prop :=
  scores_tallied g /\ bombs_recorded g /\ history_numbered g
  /\ game_over g = (round_number g >=? 3).

(** A request to the web application, with what the round draws. *)
Inductive WebRequest : Type :=
| WebStart (session_id : SessionId)
| WebPlay (session_id : SessionId) (move : option string) (rnd : Random)
          (ai : AiReply)
| WebReset (session_id : SessionId).

Definition web_step (req : WebRequest) (ss : Sessions) : Sessions :=
  match req with
  | WebStart sid => snd (app_start_game sid ss)
  | WebPlay sid move rnd ai => snd (app_play_round sid move rnd ai ss)
  | WebReset sid => app_reset_game sid ss
  end.

Fixpoint web_run (reqs : list WebRequest) (ss : Sessions) : Sessions :=
  match reqs with
  | [] => ss
  | req :: rest => web_run rest (web_step req ss)
  end.

Definition request_session (req : WebRequest) : SessionId :=
  match req with
  | WebStart sid | WebPlay sid _ _ _ | WebReset sid => sid
  end.

(* ===================================================================== *)
(** ** Basic facts                                                        *)
(* ===================================================================== *)

Lemma Move_eqb_eq (a b : Move) : Move_eqb a b = true <-> a = b.
Proof. destruct a, b; simpl; split; intros H; congruence. Qed.

Lemma Move_eqb_refl (a : Move) : Move_eqb a a = true.
Proof. destruct a; reflexivity. Qed.

Lemma Move_of_value_Some (v : string) (m : Move) :
  Move_of_value v = Some m <-> v = Move_value m.
Proof.
  split.
  - unfold Move_of_value, Move_members. cbn [find Move_value].
    destruct (String.eqb_spec "rock" v) as [<- | _];
      [intros H; inversion H; reflexivity |].
    destruct (String.eqb_spec "paper" v) as [<- | _];
      [intros H; inversion H; reflexivity |].
    destruct (String.eqb_spec "scissors" v) as [<- | _];
      [intros H; inversion H; reflexivity |].
    destruct (String.eqb_spec "bomb" v) as [<- | _];
      [intros H; inversion H; reflexivity | discriminate].
  - intros ->. destruct m; reflexivity.
Qed.

Lemma Move_of_value_value (m : Move) : Move_of_value (Move_value m) = Some m.
Proof. destruct m; reflexivity. Qed.

Module PyStrFacts.
Import PyStr.

Lemma isspace_lower_char (c : ascii) : isspace (lower_char c) = isspace c.
Proof.
  destruct c as [b0 b1 b2 b3 b4 b5 b6 b7].
  destruct b0, b1, b2, b3, b4, b5, b6, b7; vm_compute; reflexivity.
Qed.

Lemma is_empty_lower (s : string) : is_empty (lower s) = is_empty s.
Proof. destruct s; reflexivity. Qed.

Lemma lower_lstrip (s : string) : lstrip (lower s) = lower (lstrip s).
Proof.
  induction s as [| c s IH]; simpl; [reflexivity |].
  rewrite isspace_lower_char. destruct (isspace c); [exact IH | reflexivity].
Qed.

Lemma lower_rstrip (s : string) : rstrip (lower s) = lower (rstrip s).
Proof.
  induction s as [| c s IH]; simpl; [reflexivity |].
  rewrite isspace_lower_char, IH, is_empty_lower.
  destruct (isspace c && is_empty (rstrip s)); reflexivity.
Qed.

(** Trimming and lowercasing commute, so the order in which
    [move.lower().strip()] applies them is immaterial. *)
Lemma lower_strip (s : string) : strip (lower s) = lower (strip s).
Proof. unfold strip. rewrite lower_lstrip, lower_rstrip. reflexivity. Qed.

End PyStrFacts.

(** A valid verdict always carries the parsed member and an empty message. *)
Lemma validate_move_valid (move : string) (used : bool) (o : option Move)
  (msg : string) :
  validate_move move used = (true, o, msg) ->
  exists m, o = Some m /\ msg = "" /\ parse_move move = Some m
            /\ (m = BOMB -> used = false).
Proof.
  unfold validate_move. destruct (parse_move move) as [m |]; [| discriminate].
  destruct (Move_eqb m BOMB && used) eqn:E; [discriminate |].
  intros H. inversion H; subst. exists m. repeat split.
  intros ->. simpl in E. exact E.
Qed.

(** An invalid verdict carries no member, and is one of the two refusals. *)
Lemma validate_move_invalid (move : string) (used : bool) (o : option Move)
  (msg : string) :
  validate_move move used = (false, o, msg) ->
  o = None
  /\ ((parse_move move = None /\ msg = unknown_move_message move)
      \/ (parse_move move = Some BOMB /\ used = true /\ msg = bomb_used_message)).
Proof.
  unfold validate_move. destruct (parse_move move) as [m |].
  - destruct (Move_eqb m BOMB && used) eqn:E; [| discriminate].
    apply andb_true_iff in E. destruct E as [E1 E2].
    apply Move_eqb_eq in E1. subst m.
    intros H. inversion H; subst. split; [reflexivity |]. right. auto.
  - intros H. inversion H; subst. split; [reflexivity |]. left. auto.
Qed.

Lemma resolve_round_returns (u b : Move) :
  exists r, resolve_round u b = Returned r
            /\ (r = USER_WIN \/ r = BOT_WIN \/ r = DRAW).
Proof. destruct u, b; eexists; (split; [reflexivity |]); auto. Qed.

Lemma random_choice_returns (seq : list Move) (r : nat) :
  seq <> [] -> exists m, random_choice seq r = Returned m /\ In m seq.
Proof.
  intros Hne. unfold random_choice.
  destruct (nth_error seq (r mod List.length seq)%nat) as [m |] eqn:E.
  - exists m. split; [reflexivity |]. eapply nth_error_In; eassumption.
  - exfalso. apply nth_error_None in E.
    assert (List.length seq <> 0)%nat
      by (destruct seq; [congruence | simpl; lia]).
    pose proof (Nat.mod_upper_bound r (List.length seq) H). lia.
Qed.

Lemma available_moves_nonempty (used : bool) (rnd : Random) :
  available_moves used rnd <> [].
Proof. unfold available_moves. simpl. discriminate. Qed.

(** The opponent draws the bomb only while its flag is still false. *)
Lemma available_moves_bomb (used : bool) (rnd : Random) :
  In BOMB (available_moves used rnd) -> used = false.
Proof.
  unfold available_moves. destruct used; simpl; [| reflexivity].
  intros [H | [H | [H | []]]]; discriminate.
Qed.

(** ** One call, in closed form *)

Lemma invalid_round_run (text msg : string) (g : GameState) :
  invalid_round text msg g =
  (Returned (invalid_outcome text msg (after_invalid_round g)),
   after_invalid_round g).
Proof.
  destruct g as [rn us bs ub bb go h].
  unfold invalid_round, invalid_outcome, after_invalid_round,
    bind, update, read, when, ret.
  simpl. destruct (rn + 1 >=? 3); reflexivity.
Qed.

Lemma valid_round_run (u : Move) (rnd : Random) (g : GameState) :
  exists b res,
    In b (available_moves (bot_bomb_used g) rnd)
    /\ resolve_round u b = Returned res
    /\ (res = USER_WIN \/ res = BOT_WIN \/ res = DRAW)
    /\ valid_round u rnd g =
       (Returned (valid_outcome u b res (after_valid_round u b res g)),
        after_valid_round u b res g).
Proof.
  destruct (random_choice_returns (available_moves (bot_bomb_used g) rnd)
              (draw rnd) (available_moves_nonempty _ _)) as (b & Hb & Hin).
  destruct (resolve_round_returns u b) as (res & Hres & Hcases).
  exists b, res. repeat (split; [assumption |]).
  destruct g as [rn us bs ub bb go h].
  unfold valid_round, valid_outcome, after_valid_round,
    bind, update, read, when, ret, lift.
  simpl in *. rewrite Hb.
  destruct (Move_eqb u BOMB); simpl;
    (destruct (Move_eqb b BOMB); simpl; rewrite Hres;
     destruct Hcases as [-> | [-> | ->]]; simpl;
     destruct (rn + 1 >=? 3); reflexivity).
Qed.

(** Every call returns, and is a transition of [round_step]. *)
Lemma play_round_tool_step (text : string) (rnd : Random) (g : GameState) :
  exists o g',
    play_round_tool text rnd g = (Returned o, g') /\ round_step text g o g'.
Proof.
  unfold play_round_tool, bind, read.
  destruct (validate_move text (user_bomb_used g)) as [[ok o] msg] eqn:V.
  destruct ok.
  - destruct (validate_move_valid _ _ _ _ V) as (u & -> & -> & _ & _).
    destruct (valid_round_run u rnd g) as (b & res & Hin & Hres & Hc & Hrun).
    rewrite Hrun. do 2 eexists. split; [reflexivity |].
    apply step_valid; try assumption.
    + destruct b; [left; simpl; auto ..|].
      right. split; [reflexivity |].
      eapply available_moves_bomb; eassumption.
    + destruct Hc as [-> | [-> | ->]]; discriminate.
  - destruct (validate_move_invalid _ _ _ _ V) as [-> _].
    rewrite invalid_round_run. do 2 eexists. split; [reflexivity |].
    apply step_invalid; assumption.
Qed.

(** The calls of a sequence peel off from the front. *)
Lemma final_cons (text : string) (rnd : Random) (rest : list Call)
  (g : GameState) :
  final ((text, rnd) :: rest) g = final rest (exec (play_round_tool text rnd) g).
Proof.
  unfold final, exec. simpl.
  destruct (play_round_tool text rnd g) as [r g1]. simpl.
  destruct (play_all rest g1); reflexivity.
Qed.

(** What a transition does to the counters and flags. *)
Lemma round_step_effect (text : string) (g : GameState) (o : Outcome)
  (g' : GameState) :
  round_step text g o g' ->
  round_number g' = round_number g + 1
  /\ game_over g' = (if round_number g + 1 >=? 3 then true else game_over g)
  /\ (user_bomb_used g = true -> user_bomb_used g' = true)
  /\ (bot_bomb_used g = true -> bot_bomb_used g' = true)
  /\ user_score g' + bot_score g' + tally "draw" o + tally "invalid" o
     = user_score g + bot_score g + 1.
Proof.
  intros H. inversion H as [msg V | u b res V Hb Hres Hne]; subst; clear H.
  - simpl. unfold tally. simpl. repeat split; auto; lia.
  - simpl. repeat split.
    + destruct (Move_eqb u BOMB); auto.
    + destruct (Move_eqb b BOMB); auto.
    + unfold tally. destruct res; simpl; lia.
Qed.

(* ===================================================================== *)
(** ** Round resolution                                                   *)
(* ===================================================================== *)

(** C1. For every pair of moves, [resolve_round] returns DRAW when the two
    moves are equal (bomb against bomb included), USER_WIN when only the
    user plays the bomb, BOT_WIN when only the opponent plays the bomb, and
    otherwise follows the cycle rock > scissors > paper > rock: the side
    whose move beats the other wins, and of two different non-bomb moves
    the one that does not beat the other is beaten by it and loses. *)
Theorem resolve_round_rules (user_move bot_move : Move) :
  (user_move = bot_move -> resolve_round user_move bot_move = Returned DRAW)
  /\ (user_move = BOMB -> bot_move <> BOMB ->
      resolve_round user_move bot_move = Returned USER_WIN)
  /\ (bot_move = BOMB -> user_move <> BOMB ->
      resolve_round user_move bot_move = Returned BOT_WIN)
  /\ (user_move <> BOMB -> bot_move <> BOMB -> user_move <> bot_move ->
      (cycle_beats user_move bot_move ->
       resolve_round user_move bot_move = Returned USER_WIN)
      /\ (~ cycle_beats user_move bot_move ->
          cycle_beats bot_move user_move
          /\ resolve_round user_move bot_move = Returned BOT_WIN)).
Proof.
  repeat apply conj.
  - intros <-. destruct user_move; reflexivity.
  - intros -> Hb. destruct bot_move; try reflexivity. congruence.
  - intros -> Hu. destruct user_move; try reflexivity. congruence.
  - intros Hu Hb Hne. split.
    + intros Hbeats. inversion Hbeats; reflexivity.
    + intros Hnot.
      destruct user_move, bot_move; try congruence;
        try (split; [constructor | reflexivity]);
        exfalso; apply Hnot; constructor.
Qed.

Lemma resolve_round_rules_witness :
  resolve_round BOMB BOMB = Returned DRAW
  /\ resolve_round BOMB PAPER = Returned USER_WIN
  /\ resolve_round SCISSORS BOMB = Returned BOT_WIN
  /\ resolve_round ROCK SCISSORS = Returned USER_WIN
  /\ resolve_round ROCK PAPER = Returned BOT_WIN.
Proof.
  repeat apply conj.
  - apply (proj1 (resolve_round_rules BOMB BOMB)). reflexivity.
  - apply (proj1 (proj2 (resolve_round_rules BOMB PAPER)));
      [reflexivity | discriminate].
  - apply (proj1 (proj2 (proj2 (resolve_round_rules SCISSORS BOMB))));
      [reflexivity | discriminate].
  - apply (proj2 (proj2 (proj2 (resolve_round_rules ROCK SCISSORS))));
      [discriminate | discriminate | discriminate | constructor].
  - apply (proj2 (proj2 (proj2 (resolve_round_rules ROCK PAPER))));
      [discriminate | discriminate | discriminate |].
    intros H. inversion H.
Defined.

(** C10. [resolve_round] is total and never raises: each of the sixteen
    pairs of moves returns USER_WIN, BOT_WIN or DRAW.  The table
    [winning_moves] has exactly the keys ROCK, PAPER and SCISSORS (looking
    BOMB up raises KeyError), and the part of the function that consults it
    runs exactly when no bomb guard has returned, that is with a user move
    and an opponent move that are both not BOMB, where the lookup
    succeeds. *)
Theorem resolve_round_total (user_move bot_move : Move) :
  (exists r, resolve_round user_move bot_move = Returned r
             /\ (r = USER_WIN \/ r = BOT_WIN \/ r = DRAW))
  /\ (forall k, (exists w, dict_get winning_moves k = Returned w) <-> k <> BOMB)
  /\ dict_get winning_moves BOMB = Raised KeyError
  /\ (forall r, bomb_cases user_move bot_move = Some r ->
                resolve_round user_move bot_move = Returned r)
  /\ (bomb_cases user_move bot_move = None <->
      user_move <> BOMB /\ bot_move <> BOMB)
  /\ (bomb_cases user_move bot_move = None ->
      resolve_round user_move bot_move = standard_rules user_move bot_move
      /\ exists w, dict_get winning_moves user_move = Returned w).
Proof.
  split; [apply resolve_round_returns |].
  split.
  { intros k. split.
    - intros [w Hw] ->. discriminate.
    - intros Hk. destruct k; try congruence; eexists; reflexivity. }
  split; [reflexivity |].
  split.
  { intros r Hr. unfold resolve_round. rewrite Hr. reflexivity. }
  split.
  { destruct user_move, bot_move; simpl; split;
      try discriminate; try (intros [? ?]; congruence);
      intros _; split; discriminate. }
  intros Hnone. unfold resolve_round. rewrite Hnone. split; [reflexivity |].
  destruct user_move; try (eexists; reflexivity).
  destruct bot_move; discriminate.
Qed.

Lemma resolve_round_total_witness :
  resolve_round PAPER SCISSORS = standard_rules PAPER SCISSORS
  /\ exists w, dict_get winning_moves PAPER = Returned w.
Proof.
  apply (proj2 (proj2 (proj2 (proj2 (proj2
           (resolve_round_total PAPER SCISSORS)))))).
  reflexivity.
Defined.

(* ===================================================================== *)
(** ** Validation and parsing                                             *)
(* ===================================================================== *)

Lemma append_assoc3 (a b c : string) : (a ++ b) ++ c = a ++ (b ++ c).
Proof. induction a as [| x a IH]; simpl; [reflexivity | rewrite IH; reflexivity]. Qed.

(** The refusal of an unknown move names every member of [Move]. *)
Lemma unknown_move_message_lists (move : string) (m : Move) :
  exists pre post, unknown_move_message move = pre ++ Move_value m ++ post.
Proof.
  unfold unknown_move_message.
  destruct m; simpl.
  - exists ("Invalid move '" ++ move ++ "'. Valid moves: "),
      ", paper, scissors, bomb".
    rewrite !append_assoc3. reflexivity.
  - exists ("Invalid move '" ++ move ++ "'. Valid moves: rock, "),
      ", scissors, bomb".
    rewrite !append_assoc3. reflexivity.
  - exists ("Invalid move '" ++ move ++ "'. Valid moves: rock, paper, "),
      ", bomb".
    rewrite !append_assoc3. reflexivity.
  - exists ("Invalid move '" ++ move ++ "'. Valid moves: rock, paper, scissors, "),
      "".
    rewrite !append_assoc3. reflexivity.
Qed.

(** C5. For every input string, [validate_move] decides on the trimmed and
    lowercased input (the two normalisations commute) matched against the
    four move names.  When the normalised text is the name of a move, the
    verdict is valid and carries that move with an empty message, unless
    the move is the bomb and the bomb flag passed is true, in which case it
    is the refusal of the used bomb.  When the normalised text is none of
    the four names, the verdict is invalid, carries no member, and its
    message is
    "Invalid move '<input>'. Valid moves: rock, paper, scissors, bomb",
    which contains each of the four names.  Validation does not change the
    session: [validate_move_tool] leaves the state as it found it and
    reports that same state with the verdict. *)
Theorem validate_move_normalises (move : string) (used : bool)
  (g : GameState) :
  parse_move move = Move_of_value (PyStr.strip (PyStr.lower move))
  /\ parse_move move = Move_of_value (PyStr.lower (PyStr.strip move))
  /\ (forall m, parse_move move = Some m <->
                PyStr.lower (PyStr.strip move) = Move_value m)
  /\ (forall m,
        PyStr.lower (PyStr.strip move) = Move_value m ->
        validate_move move used =
          (if Move_eqb m BOMB && used
           then (false, None, "Bomb has already been used this game")
           else (true, Some m, "")))
  /\ ((forall m, PyStr.lower (PyStr.strip move) <> Move_value m) ->
      validate_move move used =
        (false, None,
         "Invalid move '" ++ move
           ++ "'. Valid moves: rock, paper, scissors, bomb"))
  /\ (parse_move move = None ->
      validate_move move used =
        (false, None,
         "Invalid move '" ++ move
           ++ "'. Valid moves: rock, paper, scissors, bomb")
      /\ forall m, exists pre post,
           snd (validate_move move used) = pre ++ Move_value m ++ post)
  /\ validate_move_tool move g =
       (Returned
          {| is_valid := fst (fst (validate_move move (user_bomb_used g)));
             parsed_move :=
               option_map Move_value
                 (snd (fst (validate_move move (user_bomb_used g))));
             error_message := snd (validate_move move (user_bomb_used g));
             current_state := g |},
        g).
Proof.
  assert (Hparse : forall m, parse_move move = Some m <->
                             PyStr.lower (PyStr.strip move) = Move_value m).
  { intros m. unfold parse_move. rewrite PyStrFacts.lower_strip.
    apply Move_of_value_Some. }
  split; [reflexivity |].
  split; [unfold parse_move; rewrite PyStrFacts.lower_strip; reflexivity |].
  split; [exact Hparse |].
  split.
  { intros m Hm. apply Hparse in Hm.
    unfold validate_move. rewrite Hm. reflexivity. }
  split.
  { intros Hnone. unfold validate_move.
    destruct (parse_move move) as [m |] eqn:P; [| reflexivity].
    exfalso. apply (Hnone m). apply Hparse. reflexivity. }
  split.
  { intros Hnone. unfold validate_move. rewrite Hnone.
    split; [reflexivity |]. intros m. simpl.
    apply unknown_move_message_lists. }
  unfold validate_move_tool, bind, read, ret, to_dict.
  destruct (validate_move move (user_bomb_used g)) as [[ok o] msg].
  reflexivity.
Qed.

Lemma validate_move_normalises_witness :
  validate_move "banana" false =
    (false, None,
     "Invalid move 'banana'. Valid moves: rock, paper, scissors, bomb")
  /\ validate_move " Rock " true = (true, Some ROCK, "")
  /\ validate_move "BOMB" true
     = (false, None, "Bomb has already been used this game").
Proof.
  split; [| split].
  - apply (proj1 (proj1 (proj2 (proj2 (proj2 (proj2 (proj2
             (validate_move_normalises "banana" false GameState_new))))))
             eq_refl)).
  - apply (proj1 (proj2 (proj2 (proj2
             (validate_move_normalises " Rock " true GameState_new))))
             ROCK eq_refl).
  - apply (proj1 (proj2 (proj2 (proj2
             (validate_move_normalises "BOMB" true GameState_new))))
             BOMB eq_refl).
Defined.

(** C6. Parsing does not depend on case or on surrounding blanks: for each
    of the four move names [s], parsing [s], parsing [s.upper()] and parsing
    [" " + s + " "] all give the move that [s] names. *)
Theorem parse_move_case_and_blanks (m : Move) :
  parse_move (Move_value m) = Some m
  /\ parse_move (PyStr.upper (Move_value m)) = Some m
  /\ parse_move (" " ++ Move_value m ++ " ") = Some m.
Proof. destruct m; repeat split; vm_compute; reflexivity. Qed.

(** C7. [determine_game_winner] depends on the two scores only: it returns
    "user" when the user's score is the higher, "bot" when the opponent's
    is, and "draw" when they are equal; two sessions with the same scores
    get the same answer whatever their other fields, [game_over]
    included. *)
Theorem determine_game_winner_by_scores (state : GameState) :
  (user_score state > bot_score state ->
   determine_game_winner state = "user")
  /\ (bot_score state > user_score state ->
      determine_game_winner state = "bot")
  /\ (user_score state = bot_score state ->
      determine_game_winner state = "draw")
  /\ (forall other : GameState,
        user_score other = user_score state ->
        bot_score other = bot_score state ->
        determine_game_winner other = determine_game_winner state).
Proof.
  unfold determine_game_winner. rewrite !Z.gtb_ltb.
  repeat apply conj.
  - intros H. destruct (Z.ltb_spec (bot_score state) (user_score state));
      [reflexivity | lia].
  - intros H. destruct (Z.ltb_spec (bot_score state) (user_score state));
      [lia |].
    destruct (Z.ltb_spec (user_score state) (bot_score state));
      [reflexivity | lia].
  - intros H. rewrite H, Z.ltb_irrefl. reflexivity.
  - intros other Hu Hb. rewrite !Z.gtb_ltb, Hu, Hb. reflexivity.
Qed.

Lemma determine_game_winner_by_scores_witness :
  determine_game_winner
    {| round_number := 3; user_score := 2; bot_score := 1;
       user_bomb_used := true; bot_bomb_used := false; game_over := false;
       rounds_history := [] |} = "user".
Proof.
  apply (proj1 (determine_game_winner_by_scores
                  {| round_number := 3; user_score := 2; bot_score := 1;
                     user_bomb_used := true; bot_bomb_used := false;
                     game_over := false; rounds_history := [] |})).
  simpl. lia.
Defined.

(* ===================================================================== *)
(** ** One round                                                          *)
(* ===================================================================== *)

Lemma exec_round_step (text : string) (rnd : Random) (g : GameState) :
  exists o, eval (play_round_tool text rnd) g = Returned o
            /\ round_step text g o (exec (play_round_tool text rnd) g).
Proof.
  destruct (play_round_tool_step text rnd g) as (o & g' & Hrun & Hstep).
  exists o. unfold eval, exec. rewrite Hrun. split; [reflexivity | exact Hstep].
Qed.

(** C2. For every session state and every invalid input (a text that names
    no move, or one that names the bomb while the user's bomb flag is
    already true), [play_round_tool] returns, adds exactly 1 to
    [round_number], sets [game_over] when the new [round_number] has reached
    3 and leaves it alone otherwise, and returns an outcome whose result is
    "invalid", which carries the validation's error message and the updated
    round number, scores and [game_over]; the scores, both bomb flags and
    the history are unchanged, and no opponent move is selected: the
    outcome's opponent move is None and nothing depends on the random
    draws. *)
Theorem invalid_input_wastes_round (g : GameState) (text : string)
  (rnd : Random) :
  parse_move text = None
  \/ (parse_move text = Some BOMB /\ user_bomb_used g = true) ->
  exists o g',
    play_round_tool text rnd g = (Returned o, g')
    /\ round_number g' = round_number g + 1
    /\ game_over g' = (if round_number g' >=? 3 then true else game_over g)
    /\ user_score g' = user_score g
    /\ bot_score g' = bot_score g
    /\ user_bomb_used g' = user_bomb_used g
    /\ bot_bomb_used g' = bot_bomb_used g
    /\ rounds_history g' = rounds_history g
    /\ out_result o = RoundResult_value INVALID
    /\ out_error_message o = Some (snd (validate_move text (user_bomb_used g)))
    /\ (parse_move text = None ->
        out_error_message o = Some (unknown_move_message text))
    /\ (parse_move text = Some BOMB ->
        out_error_message o = Some bomb_used_message)
    /\ out_user_move o = text
    /\ out_bot_move o = None
    /\ out_round_number o = round_number g'
    /\ out_user_score o = user_score g'
    /\ out_bot_score o = bot_score g'
    /\ out_game_over o = game_over g'
    /\ (forall rnd', play_round_tool text rnd' g = (Returned o, g')).
Proof.
  intros Hbad.
  destruct (validate_move text (user_bomb_used g)) as [[ok mv] msg] eqn:V.
  assert (Hok : ok = false /\ mv = None).
  { unfold validate_move in V.
    destruct Hbad as [Hp | [Hp Hu]]; rewrite Hp in V; [| rewrite Hu in V];
      simpl in V; inversion V; auto. }
  destruct Hok as [-> ->].
  assert (R : forall rnd', play_round_tool text rnd' g =
                (Returned (invalid_outcome text msg (after_invalid_round g)),
                 after_invalid_round g)).
  { intros rnd'. unfold play_round_tool, bind, read. rewrite V.
    apply invalid_round_run. }
  exists (invalid_outcome text msg (after_invalid_round g)),
    (after_invalid_round g).
  split; [apply R |].
  destruct (validate_move_invalid _ _ _ _ V) as [_ Hmsg].
  simpl. repeat split; try exact R.
  - intros Hp. destruct Hmsg as [[_ ->] | [Hq _]]; [reflexivity | congruence].
  - intros Hp. destruct Hmsg as [[Hq _] | [_ [_ ->]]]; [congruence | reflexivity].
Qed.

Lemma invalid_input_wastes_round_witness :
  exists o g',
    play_round_tool "banana" (mkRandom true 3) GameState_new = (Returned o, g')
    /\ round_number g' = 1
    /\ user_score g' = 0 /\ bot_score g' = 0
    /\ rounds_history g' = []
    /\ out_result o = "invalid".
Proof.
  destruct (invalid_input_wastes_round GameState_new "banana"
              (mkRandom true 3) (or_introl eq_refl))
    as (o & g' & Hrun & Hrn & _ & Hus & Hbs & _ & _ & Hh & Hres & _).
  exists o, g'. repeat split; assumption.
Defined.

(* ===================================================================== *)
(** ** Sequences of rounds                                                *)
(* ===================================================================== *)

Lemma play_all_cons (text : string) (rnd : Random) (rest : list Call)
  (g : GameState) :
  play_all ((text, rnd) :: rest) g =
  (eval (play_round_tool text rnd) g
     :: fst (play_all rest (exec (play_round_tool text rnd) g)),
   final rest (exec (play_round_tool text rnd) g)).
Proof.
  unfold final, exec, eval. simpl.
  destruct (play_round_tool text rnd g) as [r g1]. simpl.
  destruct (play_all rest g1); reflexivity.
Qed.

Lemma play_all_returns (calls : list Call) (g : GameState) :
  Forall returned (fst (play_all calls g)).
Proof.
  revert g. induction calls as [| [text rnd] rest IH]; intros g.
  - constructor.
  - rewrite play_all_cons. cbn [fst]. constructor; [| apply IH].
    destruct (exec_round_step text rnd g) as (o & Ho & _).
    exists o. exact Ho.
Qed.

(** From any state: what the calls add to the scores and the two counts is
    what they add to [round_number], one per call. *)
Lemma accounting_from (calls : list Call) (g : GameState) :
  let rs := fst (play_all calls g) in
  let g' := final calls g in
  round_number g' = round_number g + Z.of_nat (List.length calls)
  /\ user_score g' + bot_score g'
     + count_result "draw" rs + count_result "invalid" rs
     = user_score g + bot_score g + Z.of_nat (List.length calls).
Proof.
  revert g. induction calls as [| [text rnd] rest IH]; intros g.
  - unfold final. simpl. lia.
  - cbv zeta. rewrite play_all_cons. cbn [fst].
    rewrite final_cons.
    destruct (exec_round_step text rnd g) as (o & Ho & Hstep).
    apply round_step_effect in Hstep.
    destruct Hstep as (Hrn & _ & _ & _ & Hsum).
    specialize (IH (exec (play_round_tool text rnd) g)). cbv zeta in IH.
    destruct IH as [IHrn IHsum].
    rewrite Ho. cbn [count_result]. fold (tally "draw" o) (tally "invalid" o).
    cbn [List.length]. split; lia.
Qed.

Lemma within_limit_kept (calls : list Call) (g : GameState) :
  within_limit g -> only_while_open calls g = true ->
  within_limit (final calls g).
Proof.
  revert g. induction calls as [| [text rnd] rest IH]; intros g Hg Hopen.
  - exact Hg.
  - rewrite final_cons. simpl in Hopen.
    apply andb_true_iff in Hopen. destruct Hopen as [Hgo Hrest].
    apply negb_true_iff in Hgo.
    apply IH; [| exact Hrest].
    destruct (exec_round_step text rnd g) as (o & _ & Hstep).
    apply round_step_effect in Hstep.
    destruct Hstep as (Hrn & Hover & _).
    destruct Hg as [Hle Hflag]. rewrite Hgo in Hflag.
    symmetry in Hflag. rewrite Z.geb_leb in Hflag.
    apply Z.leb_gt in Hflag.
    unfold within_limit. rewrite Hover, Hrn. split; [lia |].
    destruct (round_number g + 1 >=? 3); [reflexivity | exact Hgo].
Qed.

(** The flag [game_over] is [round_number >= 3] after any calls on a fresh
    session, guarded or not. *)
Lemma game_over_tracks_round (calls : list Call) (g : GameState) :
  game_over g = (round_number g >=? 3) ->
  game_over (final calls g) = (round_number (final calls g) >=? 3).
Proof.
  revert g. induction calls as [| [text rnd] rest IH]; intros g Hg.
  - exact Hg.
  - rewrite final_cons. apply IH.
    destruct (exec_round_step text rnd g) as (o & _ & Hstep).
    apply round_step_effect in Hstep.
    destruct Hstep as (Hrn & Hover & _).
    rewrite Hover, Hrn, Hg. rewrite !Z.geb_leb.
    destruct (Z.leb_spec 3 (round_number g + 1));
      destruct (Z.leb_spec 3 (round_number g)); try reflexivity; lia.
Qed.

(** C3, as stated, fails: [play_round_tool] has no check of [game_over], so
    a fourth call on a finished session is played like any other and takes
    [round_number] to 4. *)
Lemma fourth_round_is_played :
  game_over (final (firstn 3 four_rocks) GameState_new) = true
  /\ (exists o,
        eval (play_round_tool "rock" (mkRandom false 0))
             (final (firstn 3 four_rocks) GameState_new) = Returned o
        /\ out_result o = "draw" /\ out_round_number o = 4)
  /\ round_number (final four_rocks GameState_new) = 4
  /\ ~ (forall calls : list Call,
          let rs := fst (play_all calls GameState_new) in
          let g := final calls GameState_new in
          user_score g + bot_score g
          + count_result "draw" rs + count_result "invalid" rs
          = round_number g
          /\ round_number g <= 3).
Proof.
  split; [reflexivity |].
  split; [eexists; repeat split; reflexivity |].
  split; [reflexivity |].
  intros H. specialize (H four_rocks). cbv zeta in H.
  destruct H as [_ H]. vm_compute in H. apply H. reflexivity.
Qed.

(** C3, amended. After any sequence of [play_round_tool] calls on a fresh
    session, every call has returned, [round_number] is the number of calls
    made, and user score + opponent score + number of draws + number of
    invalid rounds = [round_number].  [play_round_tool] itself does not
    refuse a call on a finished session; when every call of the sequence is
    made while [game_over] is still false, [round_number] is at most 3. *)
Theorem round_accounting (calls : list Call) :
  let rs := fst (play_all calls GameState_new) in
  let g := final calls GameState_new in
  user_score g + bot_score g
  + count_result "draw" rs + count_result "invalid" rs
  = round_number g
  /\ Forall returned rs
  /\ round_number g = Z.of_nat (List.length calls)
  /\ (only_while_open calls GameState_new = true -> round_number g <= 3).
Proof.
  cbv zeta.
  pose proof (accounting_from calls GameState_new) as H. cbv zeta in H.
  destruct H as [Hrn Hsum]. simpl in Hrn, Hsum.
  split; [lia |]. split; [apply play_all_returns |]. split; [lia |].
  intros Hopen.
  apply (within_limit_kept calls GameState_new); [| exact Hopen].
  split; [simpl; lia | reflexivity].
Qed.

Lemma round_accounting_witness :
  round_number (final (firstn 3 four_rocks) GameState_new) <= 3.
Proof.
  apply (proj2 (proj2 (proj2 (round_accounting (firstn 3 four_rocks))))).
  reflexivity.
Defined.

(* ===================================================================== *)
(** ** Flags that only rise                                               *)
(* ===================================================================== *)

Section PermanentFlag.

Variable flag : GameState -> bool.

Hypothesis flag_kept :
  forall text rnd g,
    flag g = true -> flag (exec (play_round_tool text rnd) g) = true.

Lemma flag_stays (calls : list Call) (g : GameState) :
  flag g = true -> flag (final calls g) = true.
Proof.
  revert g. induction calls as [| [text rnd] rest IH]; intros g Hg.
  - exact Hg.
  - rewrite final_cons. apply IH. apply flag_kept. exact Hg.
Qed.

Lemma flag_trace_head (calls : list Call) (g : GameState) :
  exists t, flag_trace flag calls g = flag g :: t.
Proof. destruct calls as [| [text rnd] rest]; eexists; reflexivity. Qed.

Lemma no_rise_once_set (calls : list Call) (g : GameState) :
  flag g = true -> rises (flag_trace flag calls g) = O.
Proof.
  revert g. induction calls as [| [text rnd] rest IH]; intros g Hg.
  - simpl. rewrite Hg. reflexivity.
  - cbn [flag_trace]. rewrite Hg.
    specialize (IH _ (flag_kept text rnd g Hg)).
    destruct (flag_trace_head rest (exec (play_round_tool text rnd) g))
      as [t Ht].
    rewrite Ht in *. exact IH.
Qed.

Lemma at_most_one_rise (calls : list Call) (g : GameState) :
  (rises (flag_trace flag calls g) <= 1)%nat.
Proof.
  revert g. induction calls as [| [text rnd] rest IH]; intros g.
  - simpl. destruct (flag g); simpl; lia.
  - destruct (flag g) eqn:Hg.
    + rewrite (no_rise_once_set _ g Hg). lia.
    + cbn [flag_trace]. rewrite Hg.
      set (g1 := exec (play_round_tool text rnd) g).
      specialize (IH g1).
      destruct (flag_trace_head rest g1) as [t Ht].
      destruct (flag g1) eqn:Hg1.
      * pose proof (no_rise_once_set rest g1 Hg1) as Hz.
        rewrite Ht in *. cbn [rises] in *. lia.
      * rewrite Ht in *. cbn [rises] in *. exact IH.
Qed.

End PermanentFlag.

Lemma user_bomb_used_kept (text : string) (rnd : Random) (g : GameState) :
  user_bomb_used g = true ->
  user_bomb_used (exec (play_round_tool text rnd) g) = true.
Proof.
  destruct (exec_round_step text rnd g) as (o & _ & Hstep).
  apply round_step_effect in Hstep. tauto.
Qed.

Lemma bot_bomb_used_kept (text : string) (rnd : Random) (g : GameState) :
  bot_bomb_used g = true ->
  bot_bomb_used (exec (play_round_tool text rnd) g) = true.
Proof.
  destruct (exec_round_step text rnd g) as (o & _ & Hstep).
  apply round_step_effect in Hstep. tauto.
Qed.

Lemma game_over_kept (text : string) (rnd : Random) (g : GameState) :
  game_over g = true -> game_over (exec (play_round_tool text rnd) g) = true.
Proof.
  intros Hg. destruct (exec_round_step text rnd g) as (o & _ & Hstep).
  apply round_step_effect in Hstep. destruct Hstep as (_ & Hover & _).
  rewrite Hover, Hg. destruct (round_number g + 1 >=? 3); reflexivity.
Qed.

(** A used bomb is refused whatever the spelling of the request. *)
Lemma used_bomb_refused (text : string) :
  parse_move text = Some BOMB ->
  validate_move text true = (false, None, bomb_used_message).
Proof. intros H. unfold validate_move. rewrite H. reflexivity. Qed.

(** C4. Along any sequence of [play_round_tool] calls from any state, each
    side's bomb flag steps from false to true at most once and, once true,
    is true after every later call; and once the user's flag is true, the
    validation of the input "bomb" against it, after any number of further
    calls, is refused with the message of the used bomb. *)
Theorem bomb_flags_are_permanent (calls : list Call) (g : GameState) :
  (user_bomb_used g = true ->
   user_bomb_used (final calls g) = true
   /\ validate_move "bomb" (user_bomb_used (final calls g))
      = (false, None, "Bomb has already been used this game"))
  /\ (bot_bomb_used g = true -> bot_bomb_used (final calls g) = true)
  /\ (rises (flag_trace user_bomb_used calls g) <= 1)%nat
  /\ (rises (flag_trace bot_bomb_used calls g) <= 1)%nat.
Proof.
  repeat apply conj.
  - intros Hg.
    pose proof (flag_stays user_bomb_used user_bomb_used_kept calls g Hg) as H.
    rewrite H. split; reflexivity.
  - apply (flag_stays bot_bomb_used bot_bomb_used_kept).
  - apply (at_most_one_rise user_bomb_used user_bomb_used_kept).
  - apply (at_most_one_rise bot_bomb_used bot_bomb_used_kept).
Qed.

Lemma bomb_flags_are_permanent_witness :
  user_bomb_used
    (final four_rocks (exec (play_round_tool "bomb" (mkRandom false 0))
                            GameState_new)) = true
  /\ validate_move "bomb"
       (user_bomb_used
          (final four_rocks (exec (play_round_tool "bomb" (mkRandom false 0))
                                  GameState_new)))
     = (false, None, "Bomb has already been used this game").
Proof.
  apply (proj1 (bomb_flags_are_permanent four_rocks
                  (exec (play_round_tool "bomb" (mkRandom false 0))
                        GameState_new))).
  reflexivity.
Defined.

(* ===================================================================== *)
(** ** Reset and termination                                              *)
(* ===================================================================== *)

(** C8. After any sequence of rounds from any state, [reset_game_tool]
    leaves (and reports) a session whose [round_number], [user_score] and
    [bot_score] are 0, whose [user_bomb_used], [bot_bomb_used] and
    [game_over] are false, and whose history is empty. *)
Theorem reset_game_tool_fresh (calls : list Call) (g0 : GameState) :
  let g := exec reset_game_tool (final calls g0) in
  round_number g = 0 /\ user_score g = 0 /\ bot_score g = 0
  /\ user_bomb_used g = false /\ bot_bomb_used g = false
  /\ game_over g = false
  /\ rounds_history g = []
  /\ eval reset_game_tool (final calls g0)
     = Returned ("Game has been reset", g).
Proof. cbv zeta. repeat split. Qed.

(** C9. In every sequence of [play_round_tool] calls on a fresh session,
    [game_over] is true exactly when [round_number] has reached 3: a call
    made while it is false makes it true if and only if that call brings
    [round_number] to 3.  No call, from any state, turns a true [game_over]
    false; [reset_game_tool] does give a session with [game_over] false. *)
Theorem game_over_at_third_round (calls : list Call) (text : string)
  (rnd : Random) :
  let g := final calls GameState_new in
  let g' := exec (play_round_tool text rnd) g in
  (game_over g = true <-> 3 <= round_number g)
  /\ (game_over g = false ->
      (game_over g' = true <-> round_number g' = 3))
  /\ (forall s : GameState,
        game_over s = true ->
        game_over (exec (play_round_tool text rnd) s) = true)
  /\ game_over (exec reset_game_tool g') = false.
Proof.
  cbv zeta.
  pose proof (game_over_tracks_round calls GameState_new eq_refl) as Hg.
  set (g := final calls GameState_new) in *.
  rewrite Z.geb_leb in Hg.
  repeat apply conj.
  - rewrite Hg. apply Z.leb_le.
  - rewrite Hg. apply Z.leb_le.
  - intros Hopen. rewrite Hopen in Hg. symmetry in Hg. apply Z.leb_gt in Hg.
    destruct (exec_round_step text rnd g) as (o & _ & Hstep).
    apply round_step_effect in Hstep. destruct Hstep as (Hrn & Hover & _).
    rewrite Hover, Hrn, Hopen, Z.geb_leb.
    destruct (Z.leb_spec 3 (round_number g + 1)) as [Hreached | Hbelow];
      split; intros Hx; try reflexivity; try discriminate; lia.
  - intros s. apply game_over_kept.
  - reflexivity.
Qed.

Lemma game_over_at_third_round_witness :
  game_over (exec (play_round_tool "paper" (mkRandom true 3))
                  (final (firstn 2 four_rocks) GameState_new)) = true
  <-> round_number (exec (play_round_tool "paper" (mkRandom true 3))
                         (final (firstn 2 four_rocks) GameState_new)) = 3.
Proof.
  apply (proj1 (proj2 (game_over_at_third_round (firstn 2 four_rocks)
                         "paper" (mkRandom true 3)))).
  reflexivity.
Defined.

(* ===================================================================== *)
(** ** The valid round, the opponent's draw, the verdict                  *)
(* ===================================================================== *)

Lemma exec_bind_ret {A B} (c : Tool A) (f : A -> B) (g : GameState) :
  exec (bind c (fun x => ret (f x))) g = exec c g.
Proof. unfold exec, bind, ret. destruct (c g) as [[a | e] g']; reflexivity. Qed.

Lemma eval_exec {A} (c : Tool A) (g : GameState) : c g = (eval c g, exec c g).
Proof. unfold eval, exec. destruct (c g); reflexivity. Qed.

Lemma RoundResult_value_inj (a b : RoundResult) :
  RoundResult_value a = RoundResult_value b -> a = b.
Proof. destruct a, b; simpl; intros H; try reflexivity; discriminate. Qed.

Lemma Move_value_inj (a b : Move) : Move_value a = Move_value b -> a = b.
Proof. destruct a, b; simpl; intros H; try reflexivity; discriminate. Qed.

Lemma Move_value_eqb (a b : Move) :
  String.eqb (Move_value a) (Move_value b) = Move_eqb a b.
Proof. destruct a, b; reflexivity. Qed.

(** The bomb is among the candidates only when the opponent has not used
    it and the draw was below the threshold. *)
Lemma available_moves_bomb_threshold (used : bool) (rnd : Random) :
  In BOMB (available_moves used rnd) ->
  used = false /\ below_threshold rnd = true.
Proof.
  unfold available_moves. destruct used, (below_threshold rnd); simpl;
    intros H; repeat (destruct H as [H | H]; try discriminate);
    try contradiction; auto.
Qed.

Lemma mod_cases_3 (n : nat) :
  (n mod 3 = 0 \/ n mod 3 = 1 \/ n mod 3 = 2)%nat.
Proof. pose proof (Nat.mod_upper_bound n 3). lia. Qed.

Lemma mod_cases_4 (n : nat) :
  (n mod 4 = 0 \/ n mod 4 = 1 \/ n mod 4 = 2 \/ n mod 4 = 3)%nat.
Proof. pose proof (Nat.mod_upper_bound n 4). lia. Qed.

(** X1. For every state and every text that parses to a move the user may
    play (any move but an already used bomb), [play_round_tool] returns and
    plays the round against some opponent move [b], which is the bomb only
    if the opponent's bomb was unused and the threshold draw succeeded: it
    adds 1 to [round_number], adds 1 to the score of the side that
    [resolve_round] names and to no other, raises the bomb flag of each
    side that played the bomb and lowers none, sets [game_over] when the
    new [round_number] is at least 3, appends exactly one record (new
    round number, both move names, result name) to the history, and
    returns an outcome with those same values and no error message. *)
Theorem valid_input_plays_round (g : GameState) (text : string)
  (rnd : Random) (u : Move) :
  parse_move text = Some u ->
  (u = BOMB -> user_bomb_used g = false) ->
  exists b res o g',
    play_round_tool text rnd g = (Returned o, g')
    /\ (b = BOMB -> bot_bomb_used g = false /\ below_threshold rnd = true)
    /\ resolve_round u b = Returned res
    /\ round_number g' = round_number g + 1
    /\ user_score g'
       = user_score g + (if RoundResult_eqb res USER_WIN then 1 else 0)
    /\ bot_score g'
       = bot_score g + (if RoundResult_eqb res BOT_WIN then 1 else 0)
    /\ user_bomb_used g' = (Move_eqb u BOMB || user_bomb_used g)
    /\ bot_bomb_used g' = (Move_eqb b BOMB || bot_bomb_used g)
    /\ game_over g' = ((round_number g' >=? 3) || game_over g)
    /\ rounds_history g'
       = (rounds_history g
          ++ [mkRoundRecord (round_number g') (Move_value u) (Move_value b)
                            (RoundResult_value res)])%list
    /\ out_result o = RoundResult_value res
    /\ out_error_message o = None
    /\ out_user_move o = Move_value u
    /\ out_bot_move o = Some (Move_value b)
    /\ out_round_number o = round_number g'
    /\ out_user_score o = user_score g'
    /\ out_bot_score o = bot_score g'
    /\ out_game_over o = game_over g'
    /\ out_user_bomb_used o = Some (user_bomb_used g')
    /\ out_bot_bomb_used o = Some (bot_bomb_used g').
Proof.
  intros Hparse Hbomb.
  assert (V : validate_move text (user_bomb_used g) = (true, Some u, "")).
  { unfold validate_move. rewrite Hparse.
    destruct (Move_eqb u BOMB) eqn:E; [| reflexivity].
    apply Move_eqb_eq in E. rewrite (Hbomb E). reflexivity. }
  destruct (valid_round_run u rnd g) as (b & res & Hin & Hres & Hc & Hrun).
  exists b, res, (valid_outcome u b res (after_valid_round u b res g)),
    (after_valid_round u b res g).
  split.
  { unfold play_round_tool, bind, read. rewrite V. exact Hrun. }
  split.
  { intros ->. eapply available_moves_bomb_threshold. exact Hin. }
  split; [exact Hres |].
  simpl. repeat split;
    first [ destruct Hc as [-> | [-> | ->]]; simpl; lia
          | destruct (Move_eqb u BOMB); reflexivity
          | destruct (Move_eqb b BOMB); reflexivity
          | destruct (round_number g + 1 >=? 3); reflexivity ].
Qed.

Lemma valid_input_plays_round_witness :
  exists b res o g',
    play_round_tool " Paper" (mkRandom true 7) GameState_new = (Returned o, g')
    /\ resolve_round PAPER b = Returned res
    /\ round_number g' = 1
    /\ out_result o = RoundResult_value res.
Proof.
  destruct (valid_input_plays_round GameState_new " Paper" (mkRandom true 7)
              PAPER eq_refl)
    as (b & res & o & g' & Hrun & _ & Hres & Hrn & _ & _ & _ & _ & _ & _
        & Ho & _).
  { intros H. discriminate H. }
  exists b, res, o, g'. repeat split; assumption.
Defined.

(** X9. The opponent's move is read off the two random draws.  When its
    bomb is unused and the threshold draw succeeded, the candidates are
    rock, paper, scissors, bomb and the move is the one at index
    [draw mod 4]; otherwise the candidates are rock, paper, scissors and
    the move is the one at index [draw mod 3].  So the opponent plays the
    bomb exactly when its bomb is unused, the threshold draw succeeded and
    [draw mod 4 = 3]; and the pick never fails. *)
Theorem opponent_choice (used : bool) (rnd : Random) :
  (used = false /\ below_threshold rnd = true ->
   random_choice (available_moves used rnd) (draw rnd)
   = Returned (nth (draw rnd mod 4) [ROCK; PAPER; SCISSORS; BOMB] ROCK))
  /\ (used = true \/ below_threshold rnd = false ->
      random_choice (available_moves used rnd) (draw rnd)
      = Returned (nth (draw rnd mod 3) [ROCK; PAPER; SCISSORS] ROCK))
  /\ (random_choice (available_moves used rnd) (draw rnd) = Returned BOMB
      <-> used = false /\ below_threshold rnd = true
          /\ (draw rnd mod 4 = 3)%nat).
Proof.
  assert (H4 : random_choice [ROCK; PAPER; SCISSORS; BOMB] (draw rnd)
               = Returned (nth (draw rnd mod 4)
                             [ROCK; PAPER; SCISSORS; BOMB] ROCK)).
  { unfold random_choice. cbn [List.length].
    destruct (mod_cases_4 (draw rnd)) as [E | [E | [E | E]]];
      rewrite E; reflexivity. }
  assert (H3 : random_choice [ROCK; PAPER; SCISSORS] (draw rnd)
               = Returned (nth (draw rnd mod 3) [ROCK; PAPER; SCISSORS] ROCK)).
  { unfold random_choice. cbn [List.length].
    destruct (mod_cases_3 (draw rnd)) as [E | [E | E]];
      rewrite E; reflexivity. }
  split; [| split].
  - intros [-> Hb]. unfold available_moves. rewrite Hb. exact H4.
  - intros Hn. unfold available_moves.
    destruct used; [exact H3 |].
    destruct Hn as [Hn | ->]; [discriminate | exact H3].
  - unfold available_moves.
    destruct used; simpl app.
    + rewrite H3. split.
      * destruct (mod_cases_3 (draw rnd)) as [E | [E | E]]; rewrite E;
          discriminate.
      * intros [Hu _]. discriminate.
    + destruct (below_threshold rnd); simpl app.
      * rewrite H4. split.
        -- destruct (mod_cases_4 (draw rnd)) as [E | [E | [E | E]]];
             rewrite E; simpl; intros H; try discriminate; auto.
        -- intros (_ & _ & E). rewrite E. reflexivity.
      * rewrite H3. split.
        -- destruct (mod_cases_3 (draw rnd)) as [E | [E | E]]; rewrite E;
             discriminate.
        -- intros (_ & Hb & _). discriminate.
Qed.

Lemma opponent_choice_witness :
  random_choice (available_moves false (mkRandom true 11)) 11
  = Returned BOMB.
Proof.
  apply (proj1 (opponent_choice false (mkRandom true 11))).
  split; reflexivity.
Defined.

(** X10. The three components of a verdict of [validate_move] hang
    together.  The verdict is valid exactly when the trimmed, lowercased
    text is the name of a move and that move is not a bomb already used;
    a valid verdict carries that move and the empty message; an invalid
    verdict carries no move and one of the two refusal messages, neither
    of which is empty. *)
Theorem validate_move_verdict (move : string) (used : bool) :
  let ok := fst (fst (validate_move move used)) in
  let parsed := snd (fst (validate_move move used)) in
  let msg := snd (validate_move move used) in
  (ok = true <->
   exists m, PyStr.strip (PyStr.lower move) = Move_value m
             /\ (m = BOMB -> used = false))
  /\ (ok = true -> parsed = parse_move move /\ parsed <> None /\ msg = "")
  /\ (ok = false ->
      parsed = None /\ msg <> ""
      /\ (msg = unknown_move_message move \/ msg = bomb_used_message)).
Proof.
  cbv zeta. unfold validate_move.
  destruct (parse_move move) as [m |] eqn:P.
  - apply Move_of_value_Some in P.
    destruct (Move_eqb m BOMB && used) eqn:E; simpl.
    + apply andb_true_iff in E. destruct E as [E1 E2].
      apply Move_eqb_eq in E1. subst m used.
      repeat split; try discriminate; auto.
      intros (m' & Hm' & Hused). rewrite P in Hm'.
      apply Move_value_inj in Hm'. subst m'.
      specialize (Hused eq_refl). discriminate.
    + repeat split; try discriminate; auto.
      exists m. split; [exact P |]. intros ->.
      simpl in E. exact E.
  - simpl. repeat split; try discriminate; auto.
    intros (m & Hm & _). apply Move_of_value_Some in Hm.
    unfold parse_move in P. congruence.
Qed.

Lemma validate_move_verdict_witness :
  snd (fst (validate_move "SCISSORS  " true)) = parse_move "SCISSORS  "
  /\ snd (fst (validate_move "SCISSORS  " true)) <> None
  /\ snd (validate_move "SCISSORS  " true) = "".
Proof.
  apply (proj1 (proj2 (validate_move_verdict "SCISSORS  " true))).
  reflexivity.
Defined.

(** X11. Asking [validate_move_tool] first tells what [play_round_tool]
    will do with the same text in the same state: both return; the round
    is wasted (result "invalid") exactly when the verdict is invalid, and
    then the outcome carries the verdict's message; when the verdict is
    valid the outcome's user move is the verdict's parsed move.  The
    validation itself leaves the state untouched. *)
Theorem validation_predicts_round (text : string) (rnd : Random)
  (g : GameState) :
  exists v o g',
    validate_move_tool text g = (Returned v, g)
    /\ play_round_tool text rnd g = (Returned o, g')
    /\ (is_valid v = false <-> out_result o = "invalid")
    /\ (is_valid v = false -> out_error_message o = Some (error_message v))
    /\ (is_valid v = true ->
        parsed_move v = Some (out_user_move o)
        /\ out_error_message o = None).
Proof.
  destruct (play_round_tool_step text rnd g) as (o & g' & Hrun & Hstep).
  unfold validate_move_tool, bind, read, ret, to_dict.
  inversion Hstep as [msg V | u b res V Hb Hres Hne]; subst;
    rewrite V; do 3 eexists; (split; [reflexivity |]);
    (split; [exact Hrun |]); simpl.
  - repeat split; try discriminate; auto.
  - repeat split; try discriminate; auto.
    intros H. exfalso. apply Hne.
    apply RoundResult_value_inj. exact H.
Qed.

Lemma validation_predicts_round_witness :
  exists v o g',
    validate_move_tool "lizard" GameState_new = (Returned v, GameState_new)
    /\ play_round_tool "lizard" (mkRandom false 2) GameState_new
       = (Returned o, g')
    /\ out_error_message o = Some (error_message v).
Proof.
  destruct (validation_predicts_round "lizard" (mkRandom false 2)
              GameState_new) as (v & o & g' & Hv & Ho & Hiff & Hmsg & _).
  exists v, o, g'. repeat split; try assumption.
  apply Hmsg.
  unfold validate_move_tool, bind, read, ret in Hv. simpl in Hv.
  inversion Hv. reflexivity.
Defined.

(* ===================================================================== *)
(** ** What every tool keeps                                              *)
(* ===================================================================== *)

Lemma exec_call_tool (req : ToolRequest) (g : GameState) :
  exec (call_tool req) g =
  match req with
  | ValidateMove _ => g
  | PlayRound text rnd => exec (play_round_tool text rnd) g
  | GetGameState => g
  | ResetGame => GameState_new
  end.
Proof.
  destruct req; unfold call_tool; rewrite exec_bind_ret; try reflexivity.
  unfold exec, validate_move_tool, bind, read, ret.
  destruct (validate_move move (user_bomb_used g)) as [[ok o] msg].
  reflexivity.
Qed.

Lemma run_tools_app (pre post : list ToolRequest) (g : GameState) :
  run_tools (pre ++ post) g = run_tools post (run_tools pre g).
Proof.
  revert g. induction pre as [| req pre IH]; intros g; [reflexivity |].
  simpl. apply IH.
Qed.

Section KeptByTools.

Variable P : GameState -> Prop.

Hypothesis P_new : P GameState_new.

Hypothesis P_round :
  forall text g o g', P g -> round_step text g o g' -> P g'.

Lemma kept_by_round (text : string) (rnd : Random) (g : GameState) :
  P g -> P (exec (play_round_tool text rnd) g).
Proof.
  intros Hg. destruct (exec_round_step text rnd g) as (o & _ & Hstep).
  eapply P_round; eassumption.
Qed.

Lemma kept_by_tools (reqs : list ToolRequest) (g : GameState) :
  P g -> P (run_tools reqs g).
Proof.
  revert g. induction reqs as [| req rest IH]; intros g Hg; [exact Hg |].
  simpl. apply IH. rewrite exec_call_tool.
  destruct req; try assumption. apply kept_by_round. exact Hg.
Qed.

Lemma kept_from_import (reqs : list ToolRequest) :
  P (run_tools reqs GameState_new).
Proof. apply kept_by_tools. exact P_new. Qed.

End KeptByTools.

Lemma count_where_snoc (p : RoundRecord -> bool) (h : list RoundRecord)
  (r : RoundRecord) :
  count_where p (h ++ [r]) = count_where p h + (if p r then 1 else 0).
Proof.
  unfold count_where. rewrite filter_app, length_app. simpl.
  destruct (p r); simpl; lia.
Qed.

Lemma rounds_increase_snoc (h : list RoundRecord) (r : RoundRecord) :
  rounds_increase h ->
  Forall (fun r' => rec_round r' < rec_round r) h ->
  rounds_increase (h ++ [r]).
Proof.
  induction h as [| x h IH]; simpl.
  - intros _ _. split; [constructor | exact I].
  - intros [Hx Hh] Hlt. inversion Hlt as [| ? ? Hxr Hrest]; subst.
    split.
    + apply Forall_app. split; [exact Hx |].
      constructor; [exact Hxr | constructor].
    + apply IH; assumption.
Qed.

Lemma scores_tallied_step (text : string) (g : GameState) (o : Outcome)
  (g' : GameState) :
  scores_tallied g -> round_step text g o g' -> scores_tallied g'.
Proof.
  intros [Hu Hb] Hstep.
  inversion Hstep as [msg V | u b res V Hbm Hres Hne]; subst.
  - split; assumption.
  - unfold scores_tallied. simpl. rewrite !count_where_snoc.
    rewrite <- Hu, <- Hb. unfold result_is.
    destruct res; simpl; split; lia.
Qed.

Lemma scores_tallied_tools (reqs : list ToolRequest) :
  scores_tallied (run_tools reqs GameState_new).
Proof.
  apply kept_from_import; [split; reflexivity |].
  intros text g o g'. apply scores_tallied_step.
Qed.

(** X3. After any sequence of tool calls (validations, rounds, state
    queries and resets in any order) on the state created at import, the
    user's score is the number of history records whose result is
    "user_win" and the opponent's score is the number whose result is
    "bot_win". *)
Theorem scores_are_history_tallies (reqs : list ToolRequest) :
  let g := run_tools reqs GameState_new in
  user_score g = count_where (result_is "user_win") (rounds_history g)
  /\ bot_score g = count_where (result_is "bot_win") (rounds_history g).
Proof. exact (scores_tallied_tools reqs). Qed.

(** X12. After any sequence of tool calls on the state created at import,
    the winner that [determine_game_winner] names is the side with more
    won rounds in the history: "user" exactly when the history has more
    "user_win" than "bot_win" records, "bot" exactly when it has fewer,
    "draw" exactly when it has as many of each. *)
Theorem winner_has_more_won_rounds (reqs : list ToolRequest) :
  let g := run_tools reqs GameState_new in
  let won := count_where (result_is "user_win") (rounds_history g) in
  let lost := count_where (result_is "bot_win") (rounds_history g) in
  (determine_game_winner g = "user" <-> lost < won)
  /\ (determine_game_winner g = "bot" <-> won < lost)
  /\ (determine_game_winner g = "draw" <-> won = lost).
Proof.
  cbv zeta. destruct (scores_tallied_tools reqs) as [Hu Hb].
  rewrite <- Hu, <- Hb. unfold determine_game_winner.
  rewrite !Z.gtb_ltb.
  set (g := run_tools reqs GameState_new).
  destruct (Z.ltb_spec (bot_score g) (user_score g));
    [| destruct (Z.ltb_spec (user_score g) (bot_score g))];
    repeat split; intros; try reflexivity; try discriminate; lia.
Qed.

Lemma bombs_recorded_step (text : string) (g : GameState) (o : Outcome)
  (g' : GameState) :
  bombs_recorded g -> round_step text g o g' -> bombs_recorded g'.
Proof.
  intros [Hu Hb] Hstep.
  inversion Hstep as [msg V | u b res V Hbm Hres Hne]; subst.
  - split; assumption.
  - destruct (validate_move_valid _ _ _ _ V) as (u' & Hu' & _ & _ & Hfree).
    inversion Hu'; subst u'.
    unfold bombs_recorded. simpl. rewrite !count_where_snoc.
    rewrite Hu, Hb. unfold user_played, bot_played.
    cbn [rec_user_move rec_bot_move].
    change "bomb" with (Move_value BOMB). rewrite !Move_value_eqb.
    clear Hu Hb. split.
    + destruct (Move_eqb u BOMB) eqn:E.
      * apply Move_eqb_eq in E. rewrite (Hfree E). reflexivity.
      * lia.
    + destruct (Move_eqb b BOMB) eqn:E.
      * apply Move_eqb_eq in E. subst b.
        destruct Hbm as [Hin | [_ Hfalse]].
        -- simpl in Hin. destruct Hin as [H | [H | [H | []]]]; discriminate.
        -- rewrite Hfalse. reflexivity.
      * lia.
Qed.

(** X4. After any sequence of tool calls on the state created at import,
    each side's bomb flag is true exactly when the history holds a round in
    which that side played "bomb", and the history never holds more than
    one such round per side: the number of records with the user's
    (opponent's) move "bomb" is 1 if [user_bomb_used] ([bot_bomb_used]) is
    true and 0 if it is false. *)
Theorem bomb_played_at_most_once (reqs : list ToolRequest) :
  let g := run_tools reqs GameState_new in
  count_where (user_played "bomb") (rounds_history g)
  = (if user_bomb_used g then 1 else 0)
  /\ count_where (bot_played "bomb") (rounds_history g)
     = (if bot_bomb_used g then 1 else 0).
Proof.
  cbv zeta.
  assert (H : bombs_recorded (run_tools reqs GameState_new)).
  { apply kept_from_import; [split; reflexivity |].
    intros text g o g'. apply bombs_recorded_step. }
  exact H.
Qed.

Lemma history_numbered_step (text : string) (g : GameState) (o : Outcome)
  (g' : GameState) :
  history_numbered g -> round_step text g o g' -> history_numbered g'.
Proof.
  intros (H0 & Hb & Hinc) Hstep.
  inversion Hstep as [msg V | u b res V Hbm Hres Hne]; subst;
    unfold history_numbered; simpl.
  - split; [lia |]. split; [| exact Hinc].
    eapply Forall_impl; [| exact Hb]. simpl. intros r Hr. lia.
  - split; [lia |]. split.
    + apply Forall_app. split.
      * eapply Forall_impl; [| exact Hb]. simpl. intros r Hr. lia.
      * constructor; [simpl; lia | constructor].
    + apply rounds_increase_snoc; [exact Hinc |].
      eapply Forall_impl; [| exact Hb]. simpl. intros r Hr. lia.
Qed.

(** X5. After any sequence of tool calls on the state created at import,
    the round numbers recorded in the history increase strictly from
    record to record and each lies between 1 and the current
    [round_number] (they skip the rounds wasted on invalid input). *)
Theorem history_rounds_increase (reqs : list ToolRequest) :
  let g := run_tools reqs GameState_new in
  rounds_increase (rounds_history g)
  /\ Forall (fun r => 1 <= rec_round r <= round_number g) (rounds_history g)
  /\ Z.of_nat (List.length (rounds_history g)) <= round_number g.
Proof.
  cbv zeta.
  assert (H : history_numbered (run_tools reqs GameState_new)
              /\ Z.of_nat (List.length
                   (rounds_history (run_tools reqs GameState_new)))
                 <= round_number (run_tools reqs GameState_new)).
  { apply (kept_from_import
             (fun g => history_numbered g
                       /\ Z.of_nat (List.length (rounds_history g))
                          <= round_number g)).
    - split; [| simpl; lia].
      split; [simpl; lia |]. split; [constructor | exact I].
    - intros text g o g' [Hn Hlen] Hstep.
      split; [eapply history_numbered_step; eassumption |].
      inversion Hstep as [msg V | u b res V Hbm Hres Hne]; subst; simpl.
      + lia.
      + rewrite length_app. simpl. lia. }
  destruct H as [(_ & Hb & Hinc) Hlen]. auto.
Qed.

(** X6. After any sequence of tool calls on the state created at import,
    every history record is a resolved round: its two moves are names of
    moves, its result is the name of what [resolve_round] returns for
    those two moves, and that result is never "invalid". *)
Theorem history_records_resolved (reqs : list ToolRequest) :
  Forall (fun r => record_resolved r /\ rec_result r <> "invalid")
         (rounds_history (run_tools reqs GameState_new)).
Proof.
  apply (kept_from_import
           (fun g => Forall (fun r => record_resolved r
                                      /\ rec_result r <> "invalid")
                            (rounds_history g))).
  - constructor.
  - intros text g o g' Hg Hstep.
    inversion Hstep as [msg V | u b res V Hbm Hres Hne]; subst; simpl.
    + exact Hg.
    + apply Forall_app. split; [exact Hg |].
      constructor; [| constructor]. split.
      * exists u, b, res. simpl. auto.
      * simpl. intros H. apply Hne.
        apply RoundResult_value_inj. exact H.
Qed.

(** X13. The tools [validate_move] and [get_game_state] only read: taking
    every call of them out of a sequence of tool calls leaves the final
    state what it was. *)
Theorem read_only_tools_drop_out (reqs : list ToolRequest) (g : GameState) :
  run_tools reqs g
  = run_tools (filter (fun req => match req with
                                  | PlayRound _ _ | ResetGame => true
                                  | ValidateMove _ | GetGameState => false
                                  end) reqs) g.
Proof.
  revert g. induction reqs as [| req rest IH]; intros g; [reflexivity |].
  destruct req; cbn [filter run_tools]; rewrite ?exec_call_tool; apply IH.
Qed.

(** A reset forgets everything before it: for a sequence of tool
    calls with a [reset_game] in it, the final state is the one that the
    calls after that reset produce from a new [GameState()], whatever the
    starting state and the calls before the reset. *)
Lemma reset_forgets_the_past (pre post : list ToolRequest)
  (g : GameState) :
  run_tools (pre ++ ResetGame :: post) g = run_tools post GameState_new.
Proof.
  rewrite run_tools_app. cbn [run_tools]. rewrite exec_call_tool.
  reflexivity.
Qed.

(* ===================================================================== *)
(** ** The history along a sequence of rounds                             *)
(* ===================================================================== *)

Lemma round_step_history (text : string) (g : GameState) (o : Outcome)
  (g' : GameState) :
  round_step text g o g' ->
  exists added,
    rounds_history g' = (rounds_history g ++ added)%list
    /\ Z.of_nat (List.length added) + tally "invalid" o = 1.
Proof.
  intros Hstep.
  inversion Hstep as [msg V | u b res V Hbm Hres Hne]; subst.
  - exists []. simpl. rewrite app_nil_r. split; reflexivity.
  - eexists. split; [reflexivity |].
    unfold tally. destruct res; simpl; try reflexivity. congruence.
Qed.

Lemma history_growth (calls : list Call) (g : GameState) :
  exists added,
    rounds_history (final calls g) = (rounds_history g ++ added)%list
    /\ Z.of_nat (List.length added)
       + count_result "invalid" (fst (play_all calls g))
       = Z.of_nat (List.length calls).
Proof.
  revert g. induction calls as [| [text rnd] rest IH]; intros g.
  - exists []. unfold final. simpl. rewrite app_nil_r. split; reflexivity.
  - rewrite play_all_cons, final_cons. cbn [fst].
    destruct (exec_round_step text rnd g) as (o & Ho & Hstep).
    destruct (round_step_history _ _ _ _ Hstep) as (a1 & Ha1 & Hn1).
    destruct (IH (exec (play_round_tool text rnd) g)) as (a2 & Ha2 & Hn2).
    exists (a1 ++ a2)%list. split.
    + rewrite Ha2, Ha1, app_assoc. reflexivity.
    + rewrite Ho. cbn [count_result]. fold (tally "invalid" o).
      rewrite length_app. cbn [List.length]. lia.
Qed.

(** X2. After any sequence of [play_round_tool] calls on a fresh session,
    the history holds one record per round that was not wasted: its length
    is [round_number] minus the number of calls whose result was
    "invalid". *)
Theorem history_length_counts_played_rounds (calls : list Call) :
  let rs := fst (play_all calls GameState_new) in
  let g := final calls GameState_new in
  Z.of_nat (List.length (rounds_history g))
  = round_number g - count_result "invalid" rs.
Proof.
  cbv zeta.
  destruct (history_growth calls GameState_new) as (added & Hh & Hn).
  destruct (accounting_from calls GameState_new) as [Hrn _].
  rewrite Hh, Hrn. simpl. lia.
Qed.

(** X7. The history is append-only: from any state, after any sequence of
    [play_round_tool] calls, the history is the history before the calls
    followed by at most one new record per call. *)
Theorem history_is_append_only (calls : list Call) (g : GameState) :
  exists added,
    rounds_history (final calls g) = (rounds_history g ++ added)%list
    /\ (List.length added <= List.length calls)%nat.
Proof.
  destruct (history_growth calls g) as (added & Hh & Hn).
  exists added. split; [exact Hh |].
  assert (0 <= count_result "invalid" (fst (play_all calls g))).
  { generalize (fst (play_all calls g)). intros rs.
    induction rs as [| [o | e] rs IH]; simpl; try lia.
    destruct (String.eqb (out_result o) "invalid"); lia. }
  lia.
Qed.

(** X8. A game driven the way [main.py] drives it, each round requested
    only while [game_over] is false, lasts exactly three calls: from a
    fresh session such a sequence has at most three calls, and the session
    is over after it exactly when it has three, valid or not. *)
Theorem guarded_game_ends_at_three_calls (calls : list Call) :
  only_while_open calls GameState_new = true ->
  (List.length calls <= 3)%nat
  /\ (game_over (final calls GameState_new) = true
      <-> List.length calls = 3%nat).
Proof.
  intros Hopen.
  destruct (accounting_from calls GameState_new) as [Hrn _].
  simpl in Hrn.
  assert (Hw : within_limit (final calls GameState_new)).
  { apply within_limit_kept; [| exact Hopen].
    split; [simpl; lia | reflexivity]. }
  destruct Hw as [Hle Hover].
  split; [lia |].
  rewrite Hover, Z.geb_leb, Z.leb_le. lia.
Qed.

Lemma guarded_game_ends_at_three_calls_witness :
  game_over (final [("rock", mkRandom true 3); ("spock", mkRandom false 0);
                    ("bomb", mkRandom false 1)] GameState_new) = true.
Proof.
  apply (proj2 (guarded_game_ends_at_three_calls
                  [("rock", mkRandom true 3); ("spock", mkRandom false 0);
                   ("bomb", mkRandom false 1)] eq_refl)).
  reflexivity.
Defined.

(* ===================================================================== *)
(** ** What main.py sees                                                  *)
(* ===================================================================== *)

Lemma agent_object_mutate (g' : GameState) (p : Process) :
  agent_object (mutate_agent_object g' p) = g'.
Proof. unfold agent_object, mutate_agent_object. destruct (rebound_object p); reflexivity. Qed.

Lemma agent_object_call (req : ToolRequest) (p : Process) :
  agent_object (process_call req p) = exec (call_tool req) (agent_object p).
Proof. destruct req; simpl; try apply agent_object_mutate; reflexivity. Qed.

Lemma agent_object_calls (reqs : list ToolRequest) (p : Process) :
  agent_object (process_calls reqs p) = run_tools reqs (agent_object p).
Proof.
  revert p. induction reqs as [| req rest IH]; intros p; [reflexivity |].
  simpl. rewrite IH, agent_object_call. reflexivity.
Qed.

Lemma imported_object_frozen (reqs : list ToolRequest) (p : Process) :
  rebound_object p <> None ->
  imported_object (process_calls reqs p) = imported_object p.
Proof.
  revert p. induction reqs as [| req rest IH]; intros p Hp; [reflexivity |].
  simpl. rewrite IH.
  - destruct req; simpl; try reflexivity;
      unfold mutate_agent_object;
      destruct (rebound_object p); try reflexivity; congruence.
  - destruct req; simpl; try discriminate;
      unfold mutate_agent_object;
      destruct (rebound_object p); try discriminate; congruence.
Qed.

Lemma shared_until_reset (reqs : list ToolRequest) (p : Process) :
  rebound_object p = None ->
  forallb (fun req => negb (is_reset req)) reqs = true ->
  rebound_object (process_calls reqs p) = None.
Proof.
  revert p. induction reqs as [| req rest IH]; intros p Hp Hno;
    [exact Hp |].
  simpl in Hno. apply andb_true_iff in Hno. destruct Hno as [Hreq Hrest].
  simpl. apply IH; [| exact Hrest].
  destruct req; try discriminate; simpl;
    unfold mutate_agent_object; rewrite Hp; reflexivity.
Qed.

(** X14. As long as no [reset_game] is among the dispatched tool calls,
    the name [game_state] of [main.py] and the global of [referee_agent]
    are one object: what the loop test and the final report of [run_game]
    read is the state the tools have produced. *)
Theorem main_sees_the_game_until_reset (reqs : list ToolRequest) :
  forallb (fun req => negb (is_reset req)) reqs = true ->
  main_sees (process_calls reqs Process_start)
  = run_tools reqs GameState_new
  /\ main_sees (process_calls reqs Process_start)
     = agent_object (process_calls reqs Process_start).
Proof.
  intros Hno.
  pose proof (shared_until_reset reqs Process_start eq_refl Hno) as Hshared.
  pose proof (agent_object_calls reqs Process_start) as Hagent.
  unfold agent_object in Hagent at 1. rewrite Hshared in Hagent.
  unfold main_sees, agent_object. rewrite Hshared.
  split; [exact Hagent | reflexivity].
Qed.

Lemma main_sees_the_game_until_reset_witness :
  main_sees (process_calls [PlayRound "rock" (mkRandom false 1);
                            ValidateMove "bomb"; GetGameState]
                           Process_start)
  = run_tools [PlayRound "rock" (mkRandom false 1);
               ValidateMove "bomb"; GetGameState] GameState_new.
Proof.
  apply (proj1 (main_sees_the_game_until_reset
                  [PlayRound "rock" (mkRandom false 1);
                   ValidateMove "bomb"; GetGameState] eq_refl)).
Defined.

(** X15. [reset_game_tool] rebinds the global of [referee_agent] and leaves
    the object that [main.py] imported alone, so from the first reset on
    nothing the tools do shows through the name [game_state] of [main.py]:
    after the calls [pre], a reset and any further calls [post], [main.py]
    still reads the state as it was after [pre], while the tools work on
    the state that [post] produces from a new [GameState()].  In
    particular a game that was not over when it was reset is never over
    for the loop test of [run_game]. *)
Theorem main_is_blind_after_reset (pre post : list ToolRequest) :
  let before := process_calls pre Process_start in
  let after := process_calls (pre ++ ResetGame :: post) Process_start in
  main_sees after = main_sees before
  /\ agent_object after = run_tools post GameState_new
  /\ (game_over (main_sees before) = false ->
      game_over (main_sees after) = false).
Proof.
  cbv zeta.
  assert (Hsplit : process_calls (pre ++ ResetGame :: post) Process_start
                   = process_calls post
                       (process_call ResetGame
                          (process_calls pre Process_start))).
  { generalize Process_start. induction pre as [| req pre IH]; intros p.
    - reflexivity.
    - simpl. apply IH. }
  assert (Hmain : main_sees (process_calls (pre ++ ResetGame :: post)
                               Process_start)
                  = main_sees (process_calls pre Process_start)).
  { rewrite Hsplit. unfold main_sees.
    rewrite imported_object_frozen; [reflexivity | discriminate]. }
  split; [exact Hmain |]. split.
  - rewrite agent_object_calls, run_tools_app. cbn [run_tools].
    rewrite exec_call_tool. reflexivity.
  - intros H. rewrite Hmain. exact H.
Qed.

Lemma main_is_blind_after_reset_witness :
  game_over (main_sees (process_calls
               ([PlayRound "rock" (mkRandom false 0)]
                ++ ResetGame :: [PlayRound "rock" (mkRandom false 0);
                                 PlayRound "paper" (mkRandom false 0);
                                 PlayRound "bomb" (mkRandom false 0)])
               Process_start)) = false
  /\ game_over (agent_object (process_calls
               ([PlayRound "rock" (mkRandom false 0)]
                ++ ResetGame :: [PlayRound "rock" (mkRandom false 0);
                                 PlayRound "paper" (mkRandom false 0);
                                 PlayRound "bomb" (mkRandom false 0)])
               Process_start)) = true.
Proof.
  split.
  - apply (proj2 (proj2 (main_is_blind_after_reset
                           [PlayRound "rock" (mkRandom false 0)]
                           [PlayRound "rock" (mkRandom false 0);
                            PlayRound "paper" (mkRandom false 0);
                            PlayRound "bomb" (mkRandom false 0)]))).
    reflexivity.
  - reflexivity.
Defined.

(* ===================================================================== *)
(** ** The web application                                                *)
(* ===================================================================== *)

Lemma lower_char_idempotent (c : ascii) :
  PyStr.lower_char (PyStr.lower_char c) = PyStr.lower_char c.
Proof.
  destruct c as [b0 b1 b2 b3 b4 b5 b6 b7].
  destruct b0, b1, b2, b3, b4, b5, b6, b7; vm_compute; reflexivity.
Qed.

Lemma lower_idempotent (s : string) :
  PyStr.lower (PyStr.lower s) = PyStr.lower s.
Proof.
  induction s as [| c s IH]; simpl; [reflexivity |].
  rewrite lower_char_idempotent, IH. reflexivity.
Qed.

Lemma parse_move_lower (s : string) :
  parse_move (PyStr.lower s) = parse_move s.
Proof. unfold parse_move. rewrite lower_idempotent. reflexivity. Qed.

Lemma app_available_moves_same (used : bool) (rnd : Random) :
  app_available_moves used rnd = available_moves used rnd.
Proof.
  unfold app_available_moves, available_moves.
  destruct used, (below_threshold rnd); reflexivity.
Qed.

Lemma SessionId_eqb_eq (a b : SessionId) : SessionId_eqb a b = true <-> a = b.
Proof.
  destruct a as [x |], b as [y |]; simpl; split; intros H;
    try discriminate; try reflexivity.
  - apply String.eqb_eq in H. congruence.
  - inversion H. apply String.eqb_refl.
Qed.

Lemma sessions_get_set_same (sid : SessionId) (g : GameState) (ss : Sessions) :
  sessions_get sid (sessions_set sid g ss) = Some g.
Proof.
  induction ss as [| [k g0] ss IH]; simpl.
  - rewrite (proj2 (SessionId_eqb_eq sid sid) eq_refl). reflexivity.
  - destruct (SessionId_eqb k sid) eqn:E; simpl; rewrite E; auto.
Qed.

Lemma sessions_get_set_other (sid other : SessionId) (g : GameState)
  (ss : Sessions) :
  other <> sid ->
  sessions_get other (sessions_set sid g ss) = sessions_get other ss.
Proof.
  intros Hne. induction ss as [| [k g0] ss IH]; simpl.
  - destruct (SessionId_eqb sid other) eqn:E; [| reflexivity].
    apply SessionId_eqb_eq in E. congruence.
  - destruct (SessionId_eqb k sid) eqn:E; simpl.
    + apply SessionId_eqb_eq in E. subst k.
      destruct (SessionId_eqb sid other) eqn:E2; [| reflexivity].
      apply SessionId_eqb_eq in E2. congruence.
    + rewrite IH. reflexivity.
Qed.

(** The state of a session as the handlers find it: the stored object, or
    a new one. *)
Lemma get_or_create_get (sid : SessionId) (ss : Sessions) :
  fst (get_or_create_game_state sid ss)
  = match sessions_get sid ss with Some g => g | None => GameState_new end.
Proof.
  unfold get_or_create_game_state. destruct (sessions_get sid ss); reflexivity.
Qed.

Lemma app_invalid_round_run (msg : string) (g : GameState) :
  app_invalid_round msg g =
  (Returned {| resp_success := false;
               resp_error := Some msg;
               resp_round := round_number g + 1;
               resp_user_move := None;
               resp_bot_move := None;
               resp_result := None;
               resp_user_score := None;
               resp_bot_score := None;
               resp_game_over := game_over (after_invalid_round g);
               resp_winner := None;
               resp_commentary := None;
               resp_user_bomb_used := None;
               resp_bot_bomb_used := None;
               resp_state := after_invalid_round g |},
   after_invalid_round g).
Proof.
  destruct g as [rn us bs ub bb go h].
  unfold app_invalid_round, after_invalid_round, bind, update, read, when,
    ret, to_dict.
  simpl. destruct (rn + 1 >=? 3); reflexivity.
Qed.

Lemma valid_round_run_at (u b : Move) (res : RoundResult) (rnd : Random)
  (g : GameState) :
  random_choice (available_moves (bot_bomb_used g) rnd) (draw rnd)
  = Returned b ->
  resolve_round u b = Returned res ->
  res <> INVALID ->
  valid_round u rnd g =
  (Returned (valid_outcome u b res (after_valid_round u b res g)),
   after_valid_round u b res g).
Proof.
  intros Hb Hres Hne.
  destruct g as [rn us bs ub bb go h].
  unfold valid_round, valid_outcome, after_valid_round,
    bind, update, read, when, ret, lift.
  simpl in *. rewrite Hb.
  destruct (Move_eqb u BOMB); simpl;
    (destruct (Move_eqb b BOMB); simpl; rewrite Hres;
     destruct res; try congruence; simpl;
     destruct (rn + 1 >=? 3); reflexivity).
Qed.

Lemma app_valid_round_run_at (u b : Move) (res : RoundResult) (rnd : Random)
  (ai : AiReply) (g : GameState) :
  random_choice (available_moves (bot_bomb_used g) rnd) (draw rnd)
  = Returned b ->
  resolve_round u b = Returned res ->
  res <> INVALID ->
  let g' := after_valid_round u b res g in
  app_valid_round u rnd ai g =
  (Returned {| resp_success := true;
               resp_error := None;
               resp_round := round_number g';
               resp_user_move := Some (Move_value u);
               resp_bot_move := Some (Move_value b);
               resp_result := Some (RoundResult_value res);
               resp_user_score := Some (user_score g');
               resp_bot_score := Some (bot_score g');
               resp_game_over := game_over g';
               resp_winner := if round_number g' >=? 3
                              then Some (determine_game_winner g')
                              else None;
               resp_commentary :=
                 Some (app_commentary ai res (round_number g'));
               resp_user_bomb_used := Some (user_bomb_used g');
               resp_bot_bomb_used := Some (bot_bomb_used g');
               resp_state := g' |},
   g').
Proof.
  intros Hb Hres Hne. cbv zeta.
  destruct g as [rn us bs ub bb go h].
  unfold app_valid_round, after_valid_round, bind, update, read, when, ret,
    lift, to_dict.
  rewrite app_available_moves_same.
  simpl in *. rewrite Hb.
  destruct (Move_eqb u BOMB); simpl;
    (destruct (Move_eqb b BOMB); simpl; rewrite Hres;
     destruct res; try congruence; simpl;
     destruct (rn + 1 >=? 3); reflexivity).
Qed.

(** The opponent's move and the result of a valid round, as functions of
    the draws. *)
Lemma round_draws (u : Move) (rnd : Random) (g : GameState) :
  exists b res,
    random_choice (available_moves (bot_bomb_used g) rnd) (draw rnd)
    = Returned b
    /\ resolve_round u b = Returned res
    /\ res <> INVALID.
Proof.
  destruct (random_choice_returns (available_moves (bot_bomb_used g) rnd)
              (draw rnd) (available_moves_nonempty _ _)) as (b & Hb & _).
  destruct (resolve_round_returns u b) as (res & Hres & Hc).
  exists b, res. repeat split; try assumption.
  destruct Hc as [-> | [-> | ->]]; discriminate.
Qed.

Lemma app_play_body_state (move : option string) (rnd : Random)
  (ai : AiReply) (g : GameState) :
  exec (app_play_body move rnd ai) g
  = exec (play_round_tool (posted_text move) rnd) g.
Proof.
  unfold exec, app_play_body, play_round_tool, bind, read.
  fold (posted_text move).
  unfold validate_move. rewrite parse_move_lower.
  destruct (parse_move (posted_text move)) as [u |].
  - destruct (Move_eqb u BOMB && user_bomb_used g).
    + rewrite app_invalid_round_run, invalid_round_run. reflexivity.
    + destruct (round_draws u rnd g) as (b & res & Hb & Hres & Hne).
      rewrite (valid_round_run_at u b res rnd g Hb Hres Hne).
      pose proof (app_valid_round_run_at u b res rnd ai g Hb Hres Hne) as H.
      cbv zeta in H. rewrite H. reflexivity.
  - rewrite app_invalid_round_run, invalid_round_run. reflexivity.
Qed.

(** X16. The web handler [/api/play] and the agent's tool play the same
    game: for the same posted text, state and random draws both return and
    leave the same state, and the response carries the outcome's round
    number, [game_over], result, moves, scores and bomb flags, the new state,
    and as winner what [determine_game_winner] says once the round number
    has reached 3 (no winner before).  The two differ in the error text of
    an unknown move: the handler lowercases the text before validating, so
    its message quotes the lowercased text where the tool quotes the text
    as typed. *)
Theorem web_round_matches_tool (text : string) (rnd : Random) (ai : AiReply)
  (g : GameState) :
  exists r o g',
    app_play_body (Some text) rnd ai g = (Returned r, g')
    /\ play_round_tool text rnd g = (Returned o, g')
    /\ resp_state r = g'
    /\ resp_round r = out_round_number o
    /\ resp_game_over r = out_game_over o
    /\ (resp_success r = false <-> out_result o = "invalid")
    /\ (resp_success r = true ->
        resp_result r = Some (out_result o)
        /\ resp_user_move r = Some (out_user_move o)
        /\ resp_bot_move r = out_bot_move o
        /\ resp_user_score r = Some (out_user_score o)
        /\ resp_bot_score r = Some (out_bot_score o)
        /\ resp_user_bomb_used r = out_user_bomb_used o
        /\ resp_bot_bomb_used r = out_bot_bomb_used o
        /\ resp_error r = None
        /\ resp_winner r = (if resp_round r >=? 3
                            then Some (determine_game_winner g') else None))
    /\ (resp_success r = false ->
        resp_winner r = None
        /\ (parse_move text = None ->
            resp_error r = Some (unknown_move_message (PyStr.lower text))
            /\ out_error_message o = Some (unknown_move_message text))
        /\ (parse_move text <> None ->
            resp_error r = Some bomb_used_message
            /\ out_error_message o = Some bomb_used_message)).
Proof.
  unfold app_play_body, play_round_tool, bind, read.
  unfold validate_move. rewrite parse_move_lower.
  destruct (parse_move text) as [u |] eqn:P.
  - destruct (Move_eqb u BOMB && user_bomb_used g).
    + rewrite app_invalid_round_run, invalid_round_run.
      do 3 eexists. split; [reflexivity |]. split; [reflexivity |].
      simpl. repeat split; try discriminate; auto; congruence.
    + destruct (round_draws u rnd g) as (b & res & Hb & Hres & Hne).
      rewrite (valid_round_run_at u b res rnd g Hb Hres Hne).
      pose proof (app_valid_round_run_at u b res rnd ai g Hb Hres Hne) as H.
      cbv zeta in H. rewrite H.
      do 3 eexists. split; [reflexivity |]. split; [reflexivity |].
      simpl. repeat split; try discriminate; auto.
      intros Hinv. exfalso. apply Hne.
      apply RoundResult_value_inj. exact Hinv.
  - rewrite app_invalid_round_run, invalid_round_run.
    do 3 eexists. split; [reflexivity |]. split; [reflexivity |].
    simpl. repeat split; try discriminate; auto; congruence.
Qed.

Lemma web_round_matches_tool_witness :
  exists r o g',
    app_play_body (Some "Banana") (mkRandom false 0) AiFailed GameState_new
    = (Returned r, g')
    /\ play_round_tool "Banana" (mkRandom false 0) GameState_new
       = (Returned o, g')
    /\ resp_error r
       = Some "Invalid move 'banana'. Valid moves: rock, paper, scissors, bomb"
    /\ out_error_message o
       = Some "Invalid move 'Banana'. Valid moves: rock, paper, scissors, bomb".
Proof.
  destruct (web_round_matches_tool "Banana" (mkRandom false 0) AiFailed
              GameState_new)
    as (r & o & g' & Hr & Ho & _ & _ & _ & Hiff & _ & Hbad).
  exists r, o, g'. split; [exact Hr |]. split; [exact Ho |].
  apply Hbad; [| reflexivity].
  apply Hiff. vm_compute in Ho. inversion Ho. reflexivity.
Defined.

(** X17. A request to [/api/play] without a ['move'], like one with an
    empty move, is not rejected before the game: it is validated as the
    empty text, refused with
    "Invalid move ''. Valid moves: rock, paper, scissors, bomb",
    and costs the session a round; scores, bomb flags and history stay as
    they were. *)
Theorem web_missing_move_wastes_round (rnd : Random) (ai : AiReply)
  (g : GameState) :
  exists r g',
    app_play_body None rnd ai g = (Returned r, g')
    /\ app_play_body (Some "") rnd ai g = (Returned r, g')
    /\ resp_success r = false
    /\ resp_error r
       = Some "Invalid move ''. Valid moves: rock, paper, scissors, bomb"
    /\ resp_round r = round_number g + 1
    /\ round_number g' = round_number g + 1
    /\ user_score g' = user_score g /\ bot_score g' = bot_score g
    /\ user_bomb_used g' = user_bomb_used g
    /\ bot_bomb_used g' = bot_bomb_used g
    /\ rounds_history g' = rounds_history g.
Proof.
  assert (H : forall move, posted_text move = "" ->
            app_play_body move rnd ai g
            = app_invalid_round (unknown_move_message "") g).
  { intros move Hm. unfold app_play_body, bind, read.
    fold (posted_text move). rewrite Hm. reflexivity. }
  rewrite (H None eq_refl), (H (Some "") eq_refl), app_invalid_round_run.
  do 2 eexists. repeat split.
Qed.

Lemma web_step_other_session (req : WebRequest) (ss : Sessions)
  (sid : SessionId) :
  request_session req <> sid ->
  sessions_get sid (web_step req ss) = sessions_get sid ss.
Proof.
  intros Hreq.
  assert (Hne : sid <> request_session req) by congruence.
  destruct req as [k | k move rnd ai | k]; simpl in *.
  - apply sessions_get_set_other. exact Hne.
  - unfold app_play_round, get_or_create_game_state.
    destruct (sessions_get k ss) as [g |];
      destruct (app_play_body move rnd ai _) as [r g']; simpl;
      rewrite !sessions_get_set_other by exact Hne; reflexivity.
  - apply sessions_get_set_other. exact Hne.
Qed.

(** X18. Sessions do not interfere: whatever requests are served for other
    session ids, the state stored for a session id is not touched. *)
Theorem web_sessions_are_isolated (reqs : list WebRequest) (ss : Sessions)
  (sid : SessionId) :
  Forall (fun req => request_session req <> sid) reqs ->
  sessions_get sid (web_run reqs ss) = sessions_get sid ss.
Proof.
  intros Hall. revert ss.
  induction Hall as [| req rest Hreq Hrest IH]; intros ss; [reflexivity |].
  simpl. rewrite IH. apply web_step_other_session. exact Hreq.
Qed.

Lemma web_sessions_are_isolated_witness :
  sessions_get (Some "alice")
    (web_run [WebPlay (Some "bob") (Some "rock") (mkRandom false 1) AiFailed;
              WebReset None]
             [(Some "alice", GameState_new)])
  = Some GameState_new.
Proof.
  rewrite (web_sessions_are_isolated
             [WebPlay (Some "bob") (Some "rock") (mkRandom false 1) AiFailed;
              WebReset None]
             [(Some "alice", GameState_new)] (Some "alice")).
  - reflexivity.
  - repeat constructor; discriminate.
Defined.

Lemma web_play_session (sid : SessionId) (move : option string)
  (rnd : Random) (ai : AiReply) (ss : Sessions) :
  sessions_get sid (web_step (WebPlay sid move rnd ai) ss)
  = Some (exec (play_round_tool (posted_text move) rnd) (session_state sid ss)).
Proof.
  simpl. unfold app_play_round, session_state, get_or_create_game_state.
  rewrite <- (app_play_body_state move rnd ai). unfold exec.
  destruct (sessions_get sid ss) as [g |];
    destruct (app_play_body move rnd ai _) as [r g']; simpl;
    apply sessions_get_set_same.
Qed.

Lemma web_start_session (sid : SessionId) (ss : Sessions) :
  sessions_get sid (web_step (WebStart sid) ss) = Some GameState_new.
Proof. simpl. apply sessions_get_set_same. Qed.

Lemma web_reset_session (sid : SessionId) (ss : Sessions) :
  sessions_get sid (web_step (WebReset sid) ss) = Some GameState_new.
Proof. simpl. apply sessions_get_set_same. Qed.

(** X19. What a request does to its own session: after [/api/play] the
    session holds the state that [play_round_tool] produces, for the posted
    text and the same draws, from the state the session had, or from a new
    [GameState()] when the id had no session yet; after [/api/start] or
    [/api/reset] it holds a new [GameState()]. *)
Theorem web_session_follows_the_tool (sid : SessionId) (ss : Sessions)
  (move : option string) (rnd : Random) (ai : AiReply) :
  sessions_get sid (web_step (WebPlay sid move rnd ai) ss)
  = Some (exec (play_round_tool (posted_text move) rnd) (session_state sid ss))
  /\ (sessions_get sid ss = None ->
      sessions_get sid (web_step (WebPlay sid move rnd ai) ss)
      = Some (exec (play_round_tool (posted_text move) rnd) GameState_new))
  /\ sessions_get sid (web_step (WebStart sid) ss) = Some GameState_new
  /\ sessions_get sid (web_step (WebReset sid) ss) = Some GameState_new.
Proof.
  split; [apply web_play_session |]. split.
  - intros Hnone. rewrite web_play_session. unfold session_state.
    rewrite Hnone. reflexivity.
  - split; [apply web_start_session | apply web_reset_session].
Qed.

Lemma web_session_follows_the_tool_witness :
  sessions_get None
    (web_step (WebPlay None (Some "paper") (mkRandom false 0) AiFailed) [])
  = Some (exec (play_round_tool "paper" (mkRandom false 0)) GameState_new).
Proof.
  apply (proj1 (proj2 (web_session_follows_the_tool None []
                         (Some "paper") (mkRandom false 0) AiFailed))).
  reflexivity.
Defined.

Lemma coherent_new : coherent GameState_new.
Proof.
  repeat split; simpl; try lia; constructor.
Qed.

Lemma coherent_step (text : string) (g : GameState) (o : Outcome)
  (g' : GameState) :
  coherent g -> round_step text g o g' -> coherent g'.
Proof.
  intros (Hs & Hb & Hn & Hover) Hstep.
  split; [eapply scores_tallied_step; eassumption |].
  split; [eapply bombs_recorded_step; eassumption |].
  split; [eapply history_numbered_step; eassumption |].
  apply round_step_effect in Hstep. destruct Hstep as (Hrn & Hgo & _).
  rewrite Hgo, Hrn, Hover, !Z.geb_leb.
  destruct (Z.leb_spec 3 (round_number g + 1));
    destruct (Z.leb_spec 3 (round_number g)); try reflexivity; lia.
Qed.

Lemma coherent_web_step (req : WebRequest) (ss : Sessions) :
  (forall sid g, sessions_get sid ss = Some g -> coherent g) ->
  forall sid g, sessions_get sid (web_step req ss) = Some g -> coherent g.
Proof.
  intros Hss sid g Hget.
  destruct (SessionId_eqb (request_session req) sid) eqn:E.
  - apply SessionId_eqb_eq in E. subst sid.
    destruct req as [k | k move rnd ai | k]; cbn [request_session] in Hget.
    + rewrite web_start_session in Hget.
      inversion Hget. apply coherent_new.
    + rewrite web_play_session in Hget. inversion Hget.
      apply (kept_by_round coherent coherent_step).
      unfold session_state. destruct (sessions_get k ss) as [g0 |] eqn:G.
      * eapply Hss. exact G.
      * apply coherent_new.
    + rewrite web_reset_session in Hget.
      inversion Hget. apply coherent_new.
  - assert (Hne : request_session req <> sid).
    { intros H. apply SessionId_eqb_eq in H. congruence. }
    rewrite (web_step_other_session req ss sid Hne) in Hget.
    eapply Hss. exact Hget.
Qed.

(** X20. Every session the web application stores obeys the laws of the
    game, whatever requests it has served since its dict was empty: the
    scores are the numbers of "user_win" and "bot_win" records in the
    history, each side's bomb flag is true exactly when the history holds
    its one bomb round, the recorded rounds are numbered increasingly
    between 1 and [round_number], and [game_over] is true exactly when
    [round_number] is at least 3. *)
Theorem web_sessions_stay_coherent (reqs : list WebRequest)
  (sid : SessionId) (g : GameState) :
  sessions_get sid (web_run reqs []) = Some g ->
  scores_tallied g /\ bombs_recorded g /\ history_numbered g
  /\ game_over g = (round_number g >=? 3).
Proof.
  assert (H : forall ss,
            (forall k s, sessions_get k ss = Some s -> coherent s) ->
            forall k s, sessions_get k (web_run reqs ss) = Some s ->
                        coherent s).
  { induction reqs as [| req rest IH]; intros ss Hss; [exact Hss |].
    simpl. apply IH. apply coherent_web_step. exact Hss. }
  intros Hget. apply (H []) with (k := sid); [| exact Hget].
  intros k s Hk. discriminate Hk.
Qed.

Lemma web_sessions_stay_coherent_witness :
  exists g,
    sessions_get (Some "s1")
      (web_run [WebPlay (Some "s1") (Some "bomb") (mkRandom true 3) AiFailed;
                WebPlay (Some "s1") (Some "bomb") (mkRandom true 3) AiFailed]
               []) = Some g
    /\ game_over g = (round_number g >=? 3).
Proof.
  eexists. split; [reflexivity |].
  apply (web_sessions_stay_coherent
           [WebPlay (Some "s1") (Some "bomb") (mkRandom true 3) AiFailed;
            WebPlay (Some "s1") (Some "bomb") (mkRandom true 3) AiFailed]
           (Some "s1")).
  reflexivity.
Defined.

(* ===================================================================== *)
(** ** The retries of get_ai_response                                     *)
(* ===================================================================== *)

(** The model obeys the recursive equation of the Python function: the
    fuel never runs out. *)
Lemma get_ai_response_unfold (attempts : nat -> Attempt) (retry_count : Z) :
  get_ai_response attempts retry_count =
  match attempts O with
  | Answered text => (AiText text, 1%nat)
  | QuotaExhausted =>
      if retry_count <? 2
      then let '(reply, passes) :=
             get_ai_response (fun k => attempts (S k)) (retry_count + 1) in
           (reply, S passes)
      else (AiFailed, 1%nat)
  | OtherError => (AiFailed, 1%nat)
  end.
Proof.
  unfold get_ai_response. cbn [get_ai_response_loop].
  destruct (attempts O); try reflexivity.
  destruct (Z.ltb_spec retry_count 2); [| reflexivity].
  replace (Z.to_nat (2 - retry_count))
    with (S (Z.to_nat (2 - (retry_count + 1)))) by lia.
  reflexivity.
Qed.

(** X21. [get_ai_response], called with the default [retry_count] of 0,
    passes through its [try] block at least once and at most three times.
    It tries again only after a quota error: it returns the text of the
    first pass that is not a quota error when that pass answers and is one
    of the first three, and raises when that pass raises or when the first
    three passes are all quota errors. *)
Theorem get_ai_response_retries_twice (attempts : nat -> Attempt) :
  (1 <= snd (get_ai_response attempts 0) <= 3)%nat
  /\ (forall k text,
        (k < 3)%nat ->
        (forall j, (j < k)%nat -> attempts j = QuotaExhausted) ->
        attempts k = Answered text ->
        get_ai_response attempts 0 = (AiText text, S k))
  /\ (forall k,
        (k < 3)%nat ->
        (forall j, (j < k)%nat -> attempts j = QuotaExhausted) ->
        attempts k = OtherError ->
        get_ai_response attempts 0 = (AiFailed, S k))
  /\ ((forall j, (j < 3)%nat -> attempts j = QuotaExhausted) ->
      get_ai_response attempts 0 = (AiFailed, 3%nat)).
Proof.
  unfold get_ai_response. simpl.
  split; [| split; [| split]].
  - destruct (attempts 0%nat); simpl; try lia.
    destruct (attempts 1%nat); simpl; try lia.
    destruct (attempts 2%nat); simpl; lia.
  - intros k text Hk Hq Ha.
    destruct k as [| [| [| k]]]; try lia.
    + rewrite Ha. reflexivity.
    + rewrite (Hq 0%nat) by lia. rewrite Ha. reflexivity.
    + rewrite (Hq 0%nat), (Hq 1%nat) by lia. rewrite Ha. reflexivity.
  - intros k Hk Hq Ha.
    destruct k as [| [| [| k]]]; try lia.
    + rewrite Ha. reflexivity.
    + rewrite (Hq 0%nat) by lia. rewrite Ha. reflexivity.
    + rewrite (Hq 0%nat), (Hq 1%nat) by lia. rewrite Ha. reflexivity.
  - intros Hq. rewrite (Hq 0%nat), (Hq 1%nat), (Hq 2%nat) by lia.
    reflexivity.
Qed.

Lemma get_ai_response_retries_twice_witness :
  get_ai_response
    (fun k => match k with
              | O => QuotaExhausted
              | S O => Answered "Nice throw!"
              | _ => OtherError
              end) 0
  = (AiText "Nice throw!", 2%nat).
Proof.
  apply (proj1 (proj2 (get_ai_response_retries_twice
                         (fun k => match k with
                                   | O => QuotaExhausted
                                   | S O => Answered "Nice throw!"
                                   | _ => OtherError
                                   end))) 1%nat "Nice throw!").
  - lia.
  - intros j Hj. destruct j; [reflexivity | lia].
  - reflexivity.
Defined.
